(** * MyCrypto: store provider, HD-wallet discovery sagas and persistence slice

    A shallow embedding of
      - [src/services/Store/StoreProvider.tsx] (the React store provider),
      - the persistence slice and its saga,
      - the base schema [SCHEMA_BASE],
    together with the HD-wallet workers exercised by
    [hdWallet.slice.test.ts].

    Part I holds the program; Part II its properties. *)

From stdpp Require Import gmap strings list fin_maps pretty.
From Stdlib Require Import ZArith.

Open Scope string_scope.
Open Scope Z_scope.
Open Scope list_scope.

(** * Part I: the program *)

(** ** Shared data model ([@types]) *)

Definition TAddress := string.
Definition TUuid := string.
Definition NetworkId := string.
Definition WalletId := string.

(** [AssetBalanceObject]: the per-account balance entry of a raw account. *)
Record AssetBalanceObject := mkAssetBalance {
  ab_uuid : TUuid;
  ab_balance : string;
  ab_mtime : Z
}.

Inductive ITxReceipt := TxReceipt (hash : string).

(** [IAccount]; [a_wallet] is [None] when the wallet id is [undefined]. *)
Record IAccount := mkAccount {
  a_address : TAddress;
  a_networkId : NetworkId;
  a_wallet : option WalletId;
  a_dPath : string;
  a_assets : list AssetBalanceObject;
  a_transactions : list ITxReceipt;
  a_favorite : bool;
  a_mtime : Z;
  a_uuid : TUuid
}.

(** [interface IAddAccount { address; dPath }] *)
Record IAddAccount := mkAddAccount {
  add_address : TAddress;
  add_dPath : string
}.

(** [ExtendedContact]. A label is a JS value read from [newLabels[idx]], which
    is [undefined] past the end of the array: [None] stands for [undefined]. *)
Record ExtendedContact := mkContact {
  c_label : option string;
  c_address : TAddress;
  c_notes : string;
  c_network : NetworkId;
  c_uuid : TUuid
}.

Record Network := mkNetwork {
  n_id : NetworkId;
  n_name : string;
  n_baseAsset : TUuid
}.

Record Asset := mkAsset {
  as_uuid : TUuid;
  as_ticker : string;
  as_networkId : option NetworkId;
  as_decimal : option nat
}.

(** [StoreAsset]: an asset together with its balance (in base units). *)
Record StoreAsset := mkStoreAsset {
  sas_asset : Asset;
  sas_balance : Z;
  sas_mtime : Z
}.

Record StoreAccount := mkStoreAccount {
  sa_address : TAddress;
  sa_networkId : NetworkId;
  sa_uuid : TUuid;
  sa_assets : list StoreAsset
}.

(** ** The store provider ([StoreProvider.tsx]) *)

Module StoreProvider.

(** Redux actions dispatched by the provider. *)
Inductive StoreAction :=
| addAccounts (accs : list IAccount)
| deleteMembership (address : TAddress) (networkId : NetworkId).

(** Calls into the hooks ([useAccounts], [useSettings], [useContacts]) and
    into the Redux [dispatch]; the provider only issues them. *)
Inductive Call :=
| dispatch (a : StoreAction)
| deleteAccount (a : IAccount)
| updateSettingsAccounts (dashboardAccounts : list TUuid)
| updateContact (c : ExtendedContact)
| createContact (c : ExtendedContact)
| createMultipleAccountsWithIDs (accs : list IAccount).

(** What a call of one of the provider's functions acts on: the React state
    cell behind [useState] for [accountRestore] (updaters passed to
    [setAccountRestore] are applied to it), the calls issued so far, and how
    many times [Date.now] and [generateUUID] have been asked. *)
Record World := mkWorld {
  accountRestoreState : gmap string (option IAccount);
  calls : list Call;
  clockReads : nat;
  uuidsDrawn : nat
}.

Inductive Completion (A : Type) :=
| Normal (a : A)
| Throw (message : string).
Arguments Normal {A} a.
Arguments Throw {A} message.

Definition M (A : Type) : Type := World → Completion A * World.

Definition ret {A} (a : A) : M A := λ w, (Normal a, w).

Definition bind {A B} (m : M A) (k : A → M B) : M B :=
  λ w, match m w with
       | (Normal a, w') => k a w'
       | (Throw e, w') => (Throw e, w')
       end.

Definition throw {A} (message : string) : M A := λ w, (Throw message, w).

Declare Scope store_scope.
Delimit Scope store_scope with store.
Notation "x <- m ;; k" := (bind m (λ x, k))
  (at level 100, m at next level, right associativity) : store_scope.
Notation "m ;;; k" := (bind m (λ _, k))
  (at level 100, right associativity) : store_scope.
Open Scope store_scope.

Definition issue (c : Call) : M unit :=
  λ w, (Normal (), mkWorld (accountRestoreState w) (calls w ++ [c])
                           (clockReads w) (uuidsDrawn w)).

Definition setAccountRestore
  (f : gmap string (option IAccount) → gmap string (option IAccount)) : M unit :=
  λ w, (Normal (), mkWorld (f (accountRestoreState w)) (calls w)
                           (clockReads w) (uuidsDrawn w)).

(** [array.map(f)] with an effectful callback. *)
Fixpoint mapM {A B} (f : A → M B) (l : list A) : M (list B) :=
  match l with
  | [] => ret []
  | x :: l' => y <- f x ;; ys <- mapM f l' ;; ret (y :: ys)
  end.

(** [array.forEach((x, idx) => ...)], started at index [idx]. *)
Fixpoint forEach_from {A} (f : A → nat → M unit) (l : list A) (idx : nat) : M unit :=
  match l with
  | [] => ret ()
  | x :: l' => f x idx ;;; forEach_from f l' (S idx)
  end.

Definition forEach {A} (f : A → nat → M unit) (l : list A) : M unit :=
  forEach_from f l 0%nat.

(** [isEmpty] of [@vendor] on [IAccount | undefined]: [undefined] is empty,
    and an account object, which carries its own enumerable fields, is not. *)
Definition isEmpty (account : option IAccount) : bool :=
  match account with
  | None => true
  | Some _ => false
  end.

(** Truthiness of [T | undefined] where [T] is an object type. *)
Definition truthy {A} (v : option A) : bool :=
  match v with
  | Some _ => true
  | None => false
  end.

(** [obj[key]] on [{ [name: string]: IAccount | undefined }]: a missing key
    and a key bound to [undefined] both read as [undefined]. *)
Definition read (obj : gmap string (option IAccount)) (key : string) : option IAccount :=
  match obj !! key with
  | Some v => v
  | None => None
  end.

(** The argument of [bigify]: a JS number or a string. *)
Inductive BigifyInput (number : Type) :=
| OfNumber (n : number)
| OfString (s : string).
Arguments OfNumber {number} n.
Arguments OfString {number} s.

(** [Object.values] of a dictionary given by its entries. *)
Definition Object_values {A} (obj : list (string * A)) : list A := obj.*2.

Definition restoreError : string :=
  "Unable to restore account! No account with id specified.".

(** One render of the provider: the values its closures capture from the
    hooks, and the helpers it imports from other files. [assets_] is the
    [assets] of [useAssets]; [web3WalletId] is [WalletId[getWeb3Config().id]];
    [NO_LABEL] is [translateRaw('NO_LABEL')]; [Date_now] and [generateUUID]
    give the n-th answer of [Date.now()] and of [generateUUID()]. *)
Record Render := mkRender {
  networks : list Network;
  assets_ : list Asset;
  contacts : list ExtendedContact;
  settings_dashboardAccounts : list TUuid;
  getNetworkById : NetworkId → list Network → option Network;
  getAccountByAddressAndNetworkName : TAddress → NetworkId → option StoreAccount;
  getContactByAddressAndNetworkId : TAddress → NetworkId → option ExtendedContact;
  getNewDefaultAssetTemplateByNetwork : list Asset → Network → Asset;
  generateDeterministicAddressUUID : NetworkId → TAddress → TUuid;
  findMultipleNextUnusedDefaultLabels :
    option WalletId → nat → list ExtendedContact → list string;
  WalletId_WEB3 : WalletId;
  web3WalletId : option WalletId;
  NO_LABEL : string;
  Date_now : nat → Z;
  generateUUID : nat → TUuid
}.

Section Provider.

Variable r : Render.

Definition now : M Z :=
  λ w, (Normal (Date_now r (clockReads w)),
        mkWorld (accountRestoreState w) (calls w) (S (clockReads w)) (uuidsDrawn w)).

Definition freshUUID : M TUuid :=
  λ w, (Normal (generateUUID r (uuidsDrawn w)),
        mkWorld (accountRestoreState w) (calls w) (clockReads w) (S (uuidsDrawn w))).

(** [deleteAccountFromCache: (account) => { ... }] *)
Definition deleteAccountFromCache (account : IAccount) : M unit :=
  setAccountRestore (λ prevState, <[a_uuid account := Some account]> prevState) ;;;
  issue (deleteAccount account) ;;;
  issue (updateSettingsAccounts
           (filter (λ dashboardUUID, dashboardUUID ≠ a_uuid account)
                   (settings_dashboardAccounts r))) ;;;
  issue (dispatch (deleteMembership (a_address account) (a_networkId account))).

(** [restoreDeletedAccount: (accountId) => { ... }]; [accountRestore] is the
    value of the state cell the closure captured. *)
Definition restoreDeletedAccount
  (accountRestore : gmap string (option IAccount)) (accountId : TUuid) : M unit :=
  let account := read accountRestore accountId in
  if isEmpty account then throw restoreError
  else
    match account with
    | Some account =>
        issue (dispatch (addAccounts [account])) ;;;
        setAccountRestore (λ prevState, <[a_uuid account := None]> prevState)
    | None => throw "TypeError" (* not reached: [isEmpty undefined] holds *)
    end.

(** One element of [newRawAccounts]; [mtime] is the [Date.now()] read while
    the element is built. *)
Definition rawAccountOf (networkId : NetworkId) (walletType : option WalletId)
  (newAsset : Asset) (a : IAddAccount) (mtime : Z) : IAccount :=
  {| a_address := add_address a;
     a_networkId := networkId;
     a_wallet := walletType;
     a_dPath := add_dPath a;
     a_assets := [ {| ab_uuid := as_uuid newAsset; ab_balance := "0"; ab_mtime := mtime |} ];
     a_transactions := [];
     a_favorite := false;
     a_mtime := 0;
     a_uuid := generateDeterministicAddressUUID r networkId (add_address a) |}.

(** The callback of [newRawAccounts.forEach((rawAccount, idx) => ...)]. *)
Definition labelContact (networkId : NetworkId) (newLabels : list string)
  (rawAccount : IAccount) (idx : nat) : M unit :=
  let existingContact :=
    getContactByAddressAndNetworkId r (a_address rawAccount) networkId in
  match existingContact with
  | Some existing =>
      if decide (c_label existing = Some (NO_LABEL r)) then
        issue (updateContact
                 {| c_label := newLabels !! idx;
                    c_address := c_address existing;
                    c_notes := c_notes existing;
                    c_network := c_network existing;
                    c_uuid := c_uuid existing |})
      else ret ()
  | None =>
      uuid <- freshUUID ;;
      let newLabel :=
        {| c_label := newLabels !! idx;
           c_address := a_address rawAccount;
           c_notes := "";
           c_network := a_networkId rawAccount;
           c_uuid := uuid |} in
      issue (createContact newLabel)
  end.

(** [addMultipleAccounts: (networkId, accountType, newAccounts) => { ... }];
    [None] is the [undefined] of a bare [return]. *)
Definition addMultipleAccounts (networkId : NetworkId) (accountType : option WalletId)
  (newAccounts : list IAddAccount) : M (option (list IAccount)) :=
  match getNetworkById r networkId (networks r) with
  | None => ret None
  | Some network =>
      if (length newAccounts =? 0)%nat then ret None
      else
        let accountsToAdd :=
          filter (λ a, negb (truthy (getAccountByAddressAndNetworkName r
                                       (add_address a) networkId)))
                 newAccounts in
        let walletType :=
          if decide (accountType = Some (WalletId_WEB3 r)) then web3WalletId r
          else accountType in
        let newAsset := getNewDefaultAssetTemplateByNetwork r (assets_ r) network in
        newRawAccounts <-
          mapM (λ a, mtime <- now ;; ret (rawAccountOf networkId walletType newAsset a mtime))
               accountsToAdd ;;
        match newRawAccounts with
        | [] => ret None
        | first :: _ =>
            let newLabels :=
              findMultipleNextUnusedDefaultLabels r
                (a_wallet first) (length newRawAccounts) (contacts r) in
            forEach (labelContact networkId newLabels) newRawAccounts ;;;
            issue (createMultipleAccountsWithIDs newRawAccounts) ;;;
            ret (Some newRawAccounts)
        end
  end.

(** The values the [accountRestore] state cell can take: it starts as [{}]
    and is only written by [deleteAccountFromCache] and by
    [restoreDeletedAccount], whose closure holds the value of the cell at
    some earlier render. *)
Inductive reachable : gmap string (option IAccount) → Prop :=
| reachable_initial : reachable ∅
| reachable_delete w account :
    reachable (accountRestoreState w) →
    reachable (accountRestoreState (deleteAccountFromCache account w).2)
| reachable_restore w accountRestore accountId :
    reachable accountRestore →
    reachable (accountRestoreState w) →
    reachable (accountRestoreState
                 (restoreDeletedAccount accountRestore accountId w).2).

(** Every account held in the cache is held under its own uuid. *)
Definition keyed_by_uuid (cache : gmap string (option IAccount)) : Prop :=
  ∀ key account, cache !! key = Some (Some account) → a_uuid account = key.

(** "[address] already has an account on the network". *)
Definition hasAccount (networkId : NetworkId) (address : TAddress) : Prop :=
  is_Some (getAccountByAddressAndNetworkName r address networkId).

#[export] Instance hasAccount_dec networkId address :
  Decision (hasAccount networkId address).
Proof. unfold hasAccount. apply _. Defined.

(** When [addMultipleAccounts] returns [undefined], in the specification's words. *)
Definition nothingToAdd (networkId : NetworkId) (newAccounts : list IAddAccount) : Prop :=
  getNetworkById r networkId (networks r) = None
  ∨ newAccounts = []
  ∨ Forall (λ a, hasAccount networkId (add_address a)) newAccounts.

(** What the specification promises of each created account. *)
Definition freshRawAccount (networkId : NetworkId) (account : IAccount) : Prop :=
  a_uuid account = generateDeterministicAddressUUID r networkId (a_address account)
  ∧ (∃ entry, a_assets account = [entry] ∧ ab_balance entry = "0")
  ∧ a_transactions account = []
  ∧ a_favorite account = false.

(** How the address book is maintained for the created account at position
    [idx], in the specification's words: the calls made for it. *)
Inductive contactMaintained (networkId : NetworkId) (newLabels : list string)
  (idx : nat) (rawAccount : IAccount) : list Call → Prop :=
| contact_relabelled existing :
    getContactByAddressAndNetworkId r (a_address rawAccount) networkId = Some existing →
    c_label existing = Some (NO_LABEL r) →
    contactMaintained networkId newLabels idx rawAccount
      [updateContact {| c_label := newLabels !! idx;
                        c_address := c_address existing;
                        c_notes := c_notes existing;
                        c_network := c_network existing;
                        c_uuid := c_uuid existing |}]
| contact_created n :
    getContactByAddressAndNetworkId r (a_address rawAccount) networkId = None →
    contactMaintained networkId newLabels idx rawAccount
      [createContact {| c_label := newLabels !! idx;
                        c_address := a_address rawAccount;
                        c_notes := "";
                        c_network := networkId;
                        c_uuid := generateUUID r n |}]
| contact_unchanged existing :
    getContactByAddressAndNetworkId r (a_address rawAccount) networkId = Some existing →
    c_label existing ≠ Some (NO_LABEL r) →
    contactMaintained networkId newLabels idx rawAccount [].

(** The raw accounts built from [accountsToAdd] when [Date.now] has been
    read [k] times before. *)
Definition rawAccountsFrom (networkId : NetworkId) (walletType : option WalletId)
  (newAsset : Asset) (k : nat) (accountsToAdd : list IAddAccount) : list IAccount :=
  imap (λ i a, rawAccountOf networkId walletType newAsset a (Date_now r (k + i)))
       accountsToAdd.

End Provider.

Section Totals.

(** [state.accounts] *)
Variable accounts : list StoreAccount.

(** [Bigish] values with [BigNumber.plus]; JS numbers; the helpers of
    [@utils] and [./Asset] that the provider imports. A JS object used as a
    dictionary is the list of its entries in enumeration order. *)
Variable Bigish : Type.
Variable number : Type.
Variable number_0 : number.
Variable bigify : BigifyInput number → Bigish.
Variable plus : Bigish → Bigish → Bigish.
Variable convertToFiatFromAsset : StoreAsset → option number → string.
Variable getTotalByAsset : list StoreAsset → list (TUuid * StoreAsset).

(** [assets: (selectedAccounts = state.accounts) => ...]; [None] is an
    omitted (or [undefined]) argument. *)
Definition assets (selectedAccounts : option (list StoreAccount)) : list StoreAsset :=
  let selectedAccounts := default accounts selectedAccounts in
  flat_map (λ account, sa_assets account) selectedAccounts.

(** [totals: (selectedAccounts = state.accounts) => ...] *)
Definition totals (selectedAccounts : option (list StoreAccount)) : list StoreAsset :=
  let selectedAccounts := default accounts selectedAccounts in
  Object_values (getTotalByAsset (assets (Some selectedAccounts))).

(** [totalFiat: (selectedAccounts = state.accounts) => (getAssetRate) => ...] *)
Definition totalFiat (selectedAccounts : option (list StoreAccount))
  (getAssetRate : Asset → option number) : Bigish :=
  let selectedAccounts := default accounts selectedAccounts in
  foldl (λ sum asset,
           plus sum (bigify (OfString
                               (convertToFiatFromAsset asset
                                  (getAssetRate (sas_asset asset))))))
        (bigify (OfNumber number_0))
        (totals (Some selectedAccounts)).

(** The specification's sum: the terms are added one by one, left to right,
    onto the starting value. *)
Fixpoint sumFrom (start : Bigish) (terms : list Bigish) : Bigish :=
  match terms with
  | [] => start
  | term :: terms' => sumFrom (plus start term) terms'
  end.

(** The fiat conversion of an aggregated asset at its rate. *)
Definition fiatOf (getAssetRate : Asset → option number) (asset : StoreAsset) : Bigish :=
  bigify (OfString (convertToFiatFromAsset asset (getAssetRate (sas_asset asset)))).

End Totals.

(** *** Views of the issued calls *)

(** The calls into [useContacts]. *)
Definition isContactCall (c : Call) : Prop :=
  match c with
  | updateContact _ | createContact _ => True
  | _ => False
  end.

(** The label a contact call carries. *)
Definition callLabel (c : Call) : option (option string) :=
  match c with
  | updateContact contact | createContact contact => Some (c_label contact)
  | _ => None
  end.

Definition contactLabels (cs : list Call) : list (option string) := omap callLabel cs.

(** The uuids of the contacts created by [createContact] calls. *)
Definition createdUuid (c : Call) : option TUuid :=
  match c with
  | createContact contact => Some (c_uuid contact)
  | _ => None
  end.

Definition createdContactUuids (cs : list Call) : list TUuid := omap createdUuid cs.

(** The [mtime]s of the asset entries of a list of accounts. *)
Definition assetMtimes (accounts : list IAccount) : list Z :=
  flat_map (λ account, ab_mtime <$> a_assets account) accounts.

(** *** The Uniswap claims effect *)

Section UniClaims.

(** [DEFAULT_NETWORK] of [@config]; the claims [getClaims] resolves to
    ([None] is [null]) and the results [isClaimed] resolves to. *)
Variable DEFAULT_NETWORK : NetworkId.
Variable RawClaims : Type.
Variable UniClaimResult : Type.
Variable getClaims_answer : list TAddress → option RawClaims.
Variable isClaimed_answer : option Network → RawClaims → list UniClaimResult.

(** What the effect does: calls of [UniswapService.instance] and of the
    state setter. *)
Inductive UniCall :=
| getClaims (addresses : list TAddress)
| isClaimed (network : option Network) (rawClaims : RawClaims)
| setUniClaims (claims : list UniClaimResult).

(** [const mainnetAccounts = accounts.filter(...).map((a) => a.address)] *)
Definition mainnetAccounts (accounts : list StoreAccount) : list TAddress :=
  sa_address <$> filter (λ a, sa_networkId a = DEFAULT_NETWORK) accounts.

(** The body of the first [useEffect], run to the end of its promise chain
    (both promises resolving); [networks.find(...)!] is [undefined] when no
    network has the default id. *)
Definition uniClaimsEffect (accounts : list StoreAccount) (networks : list Network) :
  list UniCall :=
  if decide (0 < length (mainnetAccounts accounts))%nat then
    getClaims (mainnetAccounts accounts) ::
    match getClaims_answer (mainnetAccounts accounts) with
    | Some rawClaims =>
        let network := List.find (λ n, bool_decide (n_id n = DEFAULT_NETWORK)) networks in
        [ isClaimed network rawClaims;
          setUniClaims (isClaimed_answer network rawClaims) ]
    | None => []
    end
  else [].

End UniClaims.

(** A sample render, account and world on which the functions are run. *)
Definition sampleRender : Render :=
  {| networks := [ {| n_id := "Ethereum"; n_name := "Ethereum"; n_baseAsset := "eth" |} ];
     assets_ := [ {| as_uuid := "eth"; as_ticker := "ETH";
                     as_networkId := Some "Ethereum"; as_decimal := Some 18%nat |} ];
     contacts := [ {| c_label := Some "No Label"; c_address := "0xB";
                      c_notes := ""; c_network := "Ethereum"; c_uuid := "c-b" |};
                   {| c_label := Some "Savings"; c_address := "0xC";
                      c_notes := ""; c_network := "Ethereum"; c_uuid := "c-c" |} ];
     settings_dashboardAccounts := ["u1"; "u2"];
     getNetworkById := λ id nets, List.find (λ n, bool_decide (n_id n = id)) nets;
     getAccountByAddressAndNetworkName := λ address networkId,
       if bool_decide (address = "0xA" ∧ networkId = "Ethereum")
       then Some {| sa_address := "0xA"; sa_networkId := "Ethereum";
                    sa_uuid := "u1"; sa_assets := [] |}
       else None;
     getContactByAddressAndNetworkId := λ address networkId,
       if bool_decide (address = "0xB" ∧ networkId = "Ethereum")
       then Some {| c_label := Some "No Label"; c_address := "0xB";
                    c_notes := ""; c_network := "Ethereum"; c_uuid := "c-b" |}
       else if bool_decide (address = "0xC" ∧ networkId = "Ethereum")
       then Some {| c_label := Some "Savings"; c_address := "0xC";
                    c_notes := ""; c_network := "Ethereum"; c_uuid := "c-c" |}
       else None;
     getNewDefaultAssetTemplateByNetwork := λ assets network,
       {| as_uuid := n_baseAsset network; as_ticker := "ETH";
          as_networkId := Some (n_id network); as_decimal := Some 18%nat |};
     generateDeterministicAddressUUID := λ networkId address,
       String.append networkId (String.append "-" address);
     findMultipleNextUnusedDefaultLabels := λ wallet n contacts,
       take n ["Ledger Account 1"; "Ledger Account 2"; "Ledger Account 3";
               "Ledger Account 4"];
     WalletId_WEB3 := "WEB3";
     web3WalletId := Some "METAMASK";
     NO_LABEL := "No Label";
     Date_now := λ n, 1600000000000 + Z.of_nat n;
     generateUUID := λ n, String.append "uuid-" (pretty n) |}.

Definition sampleAccount : IAccount :=
  {| a_address := "0xA"; a_networkId := "Ethereum"; a_wallet := Some "LEDGER_NANO_S";
     a_dPath := "m/44'/60'/0'/0"; a_assets := []; a_transactions := [];
     a_favorite := false; a_mtime := 0; a_uuid := "u1" |}.

Definition emptyWorld : World :=
  {| accountRestoreState := ∅; calls := []; clockReads := 0; uuidsDrawn := 0 |}.

(** A second account, and the first one edited (same uuid). *)
Definition sampleAccount2 : IAccount :=
  {| a_address := "0xE"; a_networkId := "Ethereum"; a_wallet := Some "LEDGER_NANO_S";
     a_dPath := "m/44'/60'/0'/1"; a_assets := []; a_transactions := [];
     a_favorite := false; a_mtime := 0; a_uuid := "u2" |}.

Definition sampleAccountEdited : IAccount :=
  {| a_address := "0xA"; a_networkId := "Ethereum"; a_wallet := Some "LEDGER_NANO_S";
     a_dPath := "m/44'/60'/0'/0"; a_assets := []; a_transactions := [];
     a_favorite := true; a_mtime := 7; a_uuid := "u1" |}.

(** 0xA already has an account; 0xB has a contact with the default label,
    0xC a contact with a label of its own, 0xD none. *)
Definition sampleNewAccounts : list IAddAccount :=
  [ mkAddAccount "0xA" "m/0"; mkAddAccount "0xB" "m/1";
    mkAddAccount "0xC" "m/2"; mkAddAccount "0xD" "m/3" ].

(** A sample selection with one asset, integers for [Bigish] and for JS
    numbers, and two rate functions that differ off that asset only. *)
Definition sampleEth : StoreAsset :=
  {| sas_asset := {| as_uuid := "eth"; as_ticker := "ETH";
                     as_networkId := Some "Ethereum"; as_decimal := Some 18%nat |};
     sas_balance := 3; sas_mtime := 0 |}.

Definition sampleSelection : list StoreAccount :=
  [ {| sa_address := "0xA"; sa_networkId := "Ethereum"; sa_uuid := "u1";
       sa_assets := [sampleEth] |} ].

Definition sample_bigify (input : BigifyInput Z) : Z :=
  match input with
  | OfNumber n => n
  | OfString s => Z.of_nat (String.length s)
  end.

Definition sample_convertToFiatFromAsset (asset : StoreAsset) (rate : option Z) : string :=
  pretty (sas_balance asset * default 1 rate).

Definition sample_getTotalByAsset (assets : list StoreAsset) : list (TUuid * StoreAsset) :=
  (λ a, (as_uuid (sas_asset a), a)) <$> assets.

Definition sampleRate1 (asset : Asset) : option Z :=
  if bool_decide (as_uuid asset = "eth") then Some 2 else None.

Definition sampleRate2 (asset : Asset) : option Z :=
  if bool_decide (as_uuid asset = "eth") then Some 2 else Some 5.

End StoreProvider.

(** ** Sagas

    A redux-saga worker is a generator that yields effect descriptions and
    is resumed with their results. The workers below are finite, so a saga is
    a finite tree: it returns, or yields an effect and continues with the
    answer. *)

Module Saga.

Section Saga.

Variable E : Type → Type.

Inductive t (R : Type) : Type :=
| Return (r : R)
| Yield {X : Type} (e : E X) (k : X → t R).
Arguments Return {R} r.
Arguments Yield {R X} e k.

(** An effect description as the middleware (and [expectSaga]) sees it. *)
Inductive Effect : Type :=
| Eff {X : Type} (e : E X).

Fixpoint bind {A B} (s : t A) (f : A → t B) : t B :=
  match s with
  | Return a => f a
  | Yield e k => Yield e (λ x, bind (k x) f)
  end.

(** [yield e] *)
Definition yield {X} (e : E X) : t X := Yield e Return.

(** The middleware: how an effect is answered from, and changes, the store. *)
Variable Store : Type.
Variable handle : ∀ X, E X → Store → X * Store.

(** Runs a saga to completion: the effects it yielded, in order, its return
    value and the store it leaves. *)
Fixpoint run {R} (s : t R) (σ : Store) : list Effect * R * Store :=
  match s with
  | Return r => ([], r, σ)
  | Yield e k =>
      let '(x, σ') := handle _ e σ in
      let '(effects, r, σ'') := run (k x) σ' in
      (Eff e :: effects, r, σ'')
  end.

Definition trace {R} (s : t R) (σ : Store) : list Effect := (run s σ).1.1.

(** [expectSaga(...).put(..).call(..)...run()]: every asserted effect was
    yielded; the assertions do not constrain the order. *)
Definition expectSaga (yielded expected : list Effect) : Prop :=
  incl expected yielded.

End Saga.

Arguments Return {E R} r.
Arguments Yield {E R X} e k.
Arguments Eff {E X} e.
Arguments bind {E A B} s f.
Arguments yield {E X} e.
Arguments run {E Store} handle {R} s σ.
Arguments trace {E Store} handle {R} s σ.
Arguments expectSaga {E} yielded expected.

End Saga.

Declare Scope saga_scope.
Delimit Scope saga_scope with saga.
Notation "x <- 'yield' e ;; k" := (Saga.Yield e (λ x, k))
  (at level 100, e at next level, right associativity) : saga_scope.
Notation "'yield' e ;; k" := (Saga.Yield e (λ _, k))
  (at level 100, e at next level, right associativity) : saga_scope.

(** ** The persistence slice and the base schema *)

Module Persistence.

(** The members of the enum [LSKeys] used by [SCHEMA_BASE]. *)
Inductive LSKeys :=
| ACCOUNTS | ADDRESS_BOOK | ASSETS | RATES | TRACKED_ASSETS | CONTRACTS
| NETWORKS | NOTIFICATIONS | SETTINGS | NETWORK_NODES | USER_ACTIONS.

(** Modelled from the spec: the string values of the enum [LSKeys], declared
    in [@types]. They are the sub-state names the specification lists;
    [NETWORK_NODES], which it does not list, is given the camel-case name of
    the member. *)
Definition LSKeys_value (k : LSKeys) : string :=
  match k with
  | ACCOUNTS => "accounts"
  | ADDRESS_BOOK => "addressBook"
  | ASSETS => "assets"
  | RATES => "rates"
  | TRACKED_ASSETS => "trackedAssets"
  | CONTRACTS => "contracts"
  | NETWORKS => "networks"
  | NOTIFICATIONS => "notifications"
  | SETTINGS => "settings"
  | NETWORK_NODES => "networkNodes"
  | USER_ACTIONS => "userActions"
  end.

(** The slices the persistence reducer imports. *)
Inductive Slice :=
| accountSlice | assetSlice | ratesSlice | trackedAssetsSlice | contactSlice
| contractSlice | networkSlice | notificationSlice | settingsSlice
| userActionSlice.

(** Modelled from the spec: [slice.name] of each imported slice, declared in
    the slice files. These are the sub-state names the specification lists,
    the contacts slice being the one named addressBook. *)
Definition name (s : Slice) : string :=
  match s with
  | accountSlice => "accounts"
  | assetSlice => "assets"
  | ratesSlice => "rates"
  | trackedAssetsSlice => "trackedAssets"
  | contactSlice => "addressBook"
  | contractSlice => "contracts"
  | networkSlice => "networks"
  | notificationSlice => "notifications"
  | settingsSlice => "settings"
  | userActionSlice => "userActions"
  end.

(** A JS object literal given by its entries in source order: a key written
    twice keeps the later value. *)
Definition object {V} (entries : list (string * V)) : gmap string V :=
  list_to_map (reverse entries).

(** The values [SCHEMA_BASE] binds: a string, the value of a [Date], the
    empty object, or an object imported from another file. *)
Inductive SchemaValue :=
| Str (s : string)
| DateValueOf (date : string)
| EmptyObject
| Imported (what : string).

(** [export const SCHEMA_BASE: LocalStorage = { ... }] *)
Definition SCHEMA_BASE_entries : list (string * SchemaValue) :=
  [ ("version", Str "v2.0.0");
    ("mtime", DateValueOf "01/01/2020");
    (LSKeys_value ACCOUNTS, EmptyObject);
    (LSKeys_value ADDRESS_BOOK, Imported "defaultContacts");
    (LSKeys_value ASSETS, EmptyObject);
    (LSKeys_value RATES, EmptyObject);
    (LSKeys_value TRACKED_ASSETS, EmptyObject);
    (LSKeys_value CONTRACTS, EmptyObject);
    (LSKeys_value NETWORKS, EmptyObject);
    (LSKeys_value NOTIFICATIONS, EmptyObject);
    (LSKeys_value SETTINGS, Imported "defaultSettings");
    (LSKeys_value NETWORK_NODES, EmptyObject);
    (LSKeys_value USER_ACTIONS, EmptyObject) ].

Definition SCHEMA_BASE : gmap string SchemaValue := object SCHEMA_BASE_entries.

(** [const slice = { reducer: persistenceReducer, name: 'database' }] *)
Definition slice_name : string := "database".

(** The sub-state names the specification lists. *)
Definition listedSubStates : list string :=
  [ "version"; "accounts"; "assets"; "rates"; "trackedAssets"; "addressBook";
    "contracts"; "networks"; "notifications"; "settings"; "userActions" ].

(** The actions [handleRehydrateSuccess] puts; their creators are imported. *)
Inductive InitAction :=
| trackInit | fetchAssets | fetchMemberships | startRatesPolling
| fetchHistory | startTxPolling | fetchENS.

Inductive Eff : Type → Type :=
| put (a : InitAction) : Eff unit.

(** [interface IRehydrate { key; type: typeof REHYDRATE }] *)
Record IRehydrate := mkRehydrate { key : string }.

Section Persistence.

(** A sub-state of the persisted state: the version string, or the state of
    one of the imported slices. *)
Variable SliceState : Type.
Variable Action : Type.

Inductive SubState :=
| VersionOf (v : string)
| StateOf (s : SliceState).

(** A reducer is called with the previous sub-state ([undefined] when the key
    is absent) and the action. *)
Abbreviation Reducer := (option SubState → Action → SubState).

(** [slice.reducer] of each imported slice, and [initialLegacyState.version]. *)
Variable reducer : Slice → Reducer.
Variable initialLegacyState_version : string.
(** [APP_PERSIST_CONFIG.key] *)
Variable APP_PERSIST_CONFIG_key : string.

(** [combineReducers] of Redux: the next state binds every key of [reducers]
    to what its reducer returns on the previous value of that key. *)
Definition combineReducers (reducers : gmap string Reducer)
  (state : gmap string SubState) (action : Action) : gmap string SubState :=
  map_imap (λ k r, Some (r (state !! k) action)) reducers.

(** [version: () => initialLegacyState.version] *)
Definition version_reducer : Reducer :=
  λ _ _, VersionOf initialLegacyState_version.

Definition persistenceReducer_entries : list (string * Reducer) :=
  [ ("version", version_reducer);
    (name accountSlice, reducer accountSlice);
    (name assetSlice, reducer assetSlice);
    (name ratesSlice, reducer ratesSlice);
    (name trackedAssetsSlice, reducer trackedAssetsSlice);
    (name contactSlice, reducer contactSlice);
    (name contractSlice, reducer contractSlice);
    (name networkSlice, reducer networkSlice);
    (name notificationSlice, reducer notificationSlice);
    (name settingsSlice, reducer settingsSlice);
    (name userActionSlice, reducer userActionSlice) ].

(** [const persistenceReducer = combineReducers({ ... })] *)
Definition persistenceReducer : gmap string SubState → Action → gmap string SubState :=
  combineReducers (object persistenceReducer_entries).

(** [function* handleRehydrateSuccess(action: IRehydrate)] *)
Definition handleRehydrateSuccess (action : IRehydrate) : Saga.t Eff unit :=
  if decide (key action = APP_PERSIST_CONFIG_key) then
    (yield put trackInit ;;
     yield put fetchAssets ;;
     yield put fetchMemberships ;;
     yield put startRatesPolling ;;
     yield put fetchHistory ;;
     yield put startTxPolling ;;
     yield put fetchENS ;;
     Saga.Return ())%saga
  else Saga.Return ().

(** The initialization effects, in order. *)
Definition initEffects : list (Saga.Effect Eff) :=
  [ Saga.Eff (put trackInit); Saga.Eff (put fetchAssets);
    Saga.Eff (put fetchMemberships); Saga.Eff (put startRatesPolling);
    Saga.Eff (put fetchHistory); Saga.Eff (put startTxPolling);
    Saga.Eff (put fetchENS) ].

End Persistence.

End Persistence.

(** ** The HD-wallet account-discovery workers

    [hdWallet.slice.ts] itself is not among the sources; its test file is.
    The data, the mocks and the expectations below are those of the test
    file; the workers are modelled from the specification. *)

Module HDWallet.

Definition DPathFormat := WalletId.

Record ExtendedDPath := mkExtendedDPath {
  dp_label : string;
  dp_value : string;
  dp_offset : nat;
  dp_numOfAddresses : nat
}.

Record PathItem := mkPathItem {
  baseDPath : ExtendedDPath;
  path : string;
  index : nat
}.

(** [DWAccountDisplay]; [balance] is absent until it has been fetched. *)
Record DWAccountDisplay := mkDisplay {
  address : TAddress;
  pathItem : PathItem;
  balance : option string
}.

(** A wallet session, by what its methods answer: the shape of [ledgerMock]. *)
Record DeterministicWallet := mkWallet {
  initialize : option ExtendedDPath → unit;
  getMultipleAddresses : list ExtendedDPath → list DWAccountDisplay;
  getDPaths : list (string * string)
}.

Record HDWalletError := mkError {
  code : string;
  message : string
}.

(** The payload of [connectHDWallet]. *)
Record ConnectPayload := mkConnect {
  walletId : DPathFormat;
  dpaths : list ExtendedDPath;
  network : Network;
  asset : Asset;
  setSession : DeterministicWallet → unit
}.

(** The payload of [getAccounts]. *)
Record GetAccountsPayload := mkGetAccounts {
  session : DeterministicWallet;
  extendedDPaths : list ExtendedDPath
}.

(** What [getAssetBalance] is called with, and the balance map it answers. *)
Record BalanceRequest := mkBalanceRequest {
  br_asset : option Asset;
  br_network : option Network;
  br_addresses : list TAddress
}.

(** The slice's actions and the separately exported action creators. *)
Inductive Action :=
| requestConnection
| requestConnectionFailure (err : HDWalletError)
| requestConnectionSuccess (asset : Asset) (network : Network)
| requestAddresses
| requestAddressesFailure (err : HDWalletError)
| requestAddressesSuccess
| enqueueAccounts (accounts : list DWAccountDisplay)
| updateAccounts (accounts : list DWAccountDisplay) (asset : option Asset)
| updateAsset (asset : Asset)
| addCustomDPaths (dpaths : list ExtendedDPath)
| triggerComplete
| processAccountsQueue
| connectHDWallet (payload : ConnectPayload)
| getAccounts (payload : GetAccountsPayload).

(** The effects the workers yield, each with the type of its answer. *)
Inductive Eff : Type → Type :=
| put (a : Action) : Eff unit
| call_selectWallet (walletId : DPathFormat) : Eff DeterministicWallet
| call_initialize (session : DeterministicWallet) (dpath : option ExtendedDPath) : Eff unit
| call_setSession (setSession : DeterministicWallet → unit)
    (session : DeterministicWallet) : Eff unit
| call_getMultipleAddresses (session : DeterministicWallet)
    (dpaths : list ExtendedDPath) : Eff (list DWAccountDisplay)
| call_getAssetBalance (request : BalanceRequest) : Eff (gmap string Z)
| select_HDWalletNetwork : Eff (option Network)
| select_HDWalletAccountQueue : Eff (list DWAccountDisplay)
| select_HDWalletAsset : Eff (option Asset).

(** What kind of step an effect is. *)
Inductive Step :=
| Dispatches (a : Action)
| FetchesBalances (addresses : list TAddress)
| OtherStep.

Definition step_of (e : Saga.Effect Eff) : Step :=
  match e with
  | Saga.Eff (put a) => Dispatches a
  | Saga.Eff (call_getAssetBalance request) => FetchesBalances (br_addresses request)
  | Saga.Eff _ => OtherStep
  end.

(** The account with the balance read from the balance map, in decimal. *)
Definition withBalance (balances : gmap string Z) (account : DWAccountDisplay) :
  DWAccountDisplay :=
  {| address := address account;
     pathItem := pathItem account;
     balance := Some (pretty (default 0 (balances !! address account))) |}.

Section Workers.

(** The application state, its reducer and the selectors of the slice; the
    functions the workers call. *)
Variable AppState : Type.
Variable reducer : AppState → Action → AppState.
Variable selectHDWalletNetwork : AppState → option Network.
Variable selectHDWalletAccountQueue : AppState → list DWAccountDisplay.
Variable selectHDWalletAsset : AppState → option Asset.
Variable selectWallet : DPathFormat → DeterministicWallet.
Variable getAssetBalance : BalanceRequest → gmap string Z.

(** The saga middleware: [put] reduces the store, [call] invokes the function
    (taken to resolve), [select] reads the store. *)
Definition middleware (X : Type) (e : Eff X) (σ : AppState) : X * AppState :=
  match e in Eff X return X * AppState with
  | put a => ((), reducer σ a)
  | call_selectWallet walletId => (selectWallet walletId, σ)
  | call_initialize session dpath => (initialize session dpath, σ)
  | call_setSession setSession session => (setSession session, σ)
  | call_getMultipleAddresses session dpaths => (getMultipleAddresses session dpaths, σ)
  | call_getAssetBalance request => (getAssetBalance request, σ)
  | select_HDWalletNetwork => (selectHDWalletNetwork σ, σ)
  | select_HDWalletAccountQueue => (selectHDWalletAccountQueue σ, σ)
  | select_HDWalletAsset => (selectHDWalletAsset σ, σ)
  end.

(** Modelled from the spec: [requestConnectionWorker] of [hdWallet.slice.ts],
    which is not among the sources. It selects the wallet implementation for
    the wallet id, initializes it with the first derivation path, passes the
    session to [setSession], dispatches [requestConnection] and finally
    [requestConnectionSuccess] with the requested asset and network. *)
Definition requestConnectionWorker (payload : ConnectPayload) : Saga.t Eff unit :=
  (session <- yield call_selectWallet (walletId payload) ;;
   yield call_initialize session (head (dpaths payload)) ;;
   yield call_setSession (setSession payload) session ;;
   yield put requestConnection ;;
   yield put (requestConnectionSuccess (asset payload) (network payload)) ;;
   Saga.Return ())%saga.

(** Modelled from the spec: [getAccountsWorker] of [hdWallet.slice.ts], which
    is not among the sources. It dispatches [requestAddresses], calls the
    session's [getMultipleAddresses] with the given derivation paths,
    dispatches [enqueueAccounts] with the derived accounts and then
    [processAccountsQueue]. *)
Definition getAccountsWorker (payload : GetAccountsPayload) : Saga.t Eff unit :=
  (yield put requestAddresses ;;
   accounts <- yield call_getMultipleAddresses (session payload) (extendedDPaths payload) ;;
   yield put (enqueueAccounts accounts) ;;
   yield put processAccountsQueue ;;
   Saga.Return ())%saga.

(** Modelled from the spec: [accountsQueueWorker] of [hdWallet.slice.ts],
    which is not among the sources; it is what [processAccountsQueue] starts.
    It reads the network, the account queue and the asset from the store,
    fetches the balances of the queued accounts in one batch, and dispatches
    [updateAccounts] with the queued accounts and their balances. *)
Definition accountsQueueWorker : Saga.t Eff unit :=
  (network <- yield select_HDWalletNetwork ;;
   accountQueue <- yield select_HDWalletAccountQueue ;;
   asset <- yield select_HDWalletAsset ;;
   balances <- yield call_getAssetBalance
                      (mkBalanceRequest asset network (address <$> accountQueue)) ;;
   yield put (updateAccounts (withBalance balances <$> accountQueue) asset) ;;
   Saga.Return ())%saga.

End Workers.

(** *** The fixtures and mocks of [hdWallet.slice.test.ts] *)

Definition fExtendedDPath : ExtendedDPath :=
  {| dp_label := "Ledger (ETH)"; dp_value := "m/44'/60'/0'";
     dp_offset := 0; dp_numOfAddresses := 1 |}.

(** [fAccount.address] of the fixtures: the address the balance mock answers for. *)
Definition addressToTestWith : TAddress := "0xfE5443FaC29fA621cFc33D41D1927fd0f5E0bB7c".

Definition fDWAccountDisplayPreBalance : DWAccountDisplay :=
  {| address := addressToTestWith;
     pathItem := {| baseDPath := fExtendedDPath; path := "m/44'/60'/0'/0"; index := 0 |};
     balance := None |}.

Definition fDWAccountDisplay : DWAccountDisplay :=
  {| address := address fDWAccountDisplayPreBalance;
     pathItem := pathItem fDWAccountDisplayPreBalance;
     balance := Some "0" |}.

Definition ledgerMock : DeterministicWallet :=
  {| initialize := λ _, ();
     getMultipleAddresses := λ _, [fDWAccountDisplayPreBalance];
     getDPaths := [] |}.

(** [jest.mock] of [selectWallet] and of [getAssetBalance]. *)
Definition selectWallet_mock : DPathFormat → DeterministicWallet := λ _, ledgerMock.

Definition getAssetBalance_mock : BalanceRequest → gmap string Z :=
  λ _, {[ "0xfE5443FaC29fA621cFc33D41D1927fd0f5E0bB7c" := 0 ]}.

(** Stand-ins for the fixtures [fNetwork] and [fAssets], which the test file
    imports. *)
Definition fNetwork : Network :=
  {| n_id := "Ethereum"; n_name := "Ethereum"; n_baseAsset := "asset-0" |}.

Definition fAssets : list Asset :=
  [ {| as_uuid := "asset-0"; as_ticker := "ETH";
       as_networkId := Some "Ethereum"; as_decimal := Some 18%nat |};
    {| as_uuid := "asset-1"; as_ticker := "DAI";
       as_networkId := Some "Ethereum"; as_decimal := Some 18%nat |} ].

(** The part of the store the selectors of the slice read. *)
Record HDWalletState := mkHDWalletState {
  st_network : option Network;
  st_asset : option Asset;
  st_accountQueue : list DWAccountDisplay
}.

(** The test runs: the mocks above, the selectors reading the slice state;
    what the tests assert does not depend on the reducer. *)
Definition runTest {R} (reducer : HDWalletState → Action → HDWalletState)
  (s : Saga.t Eff R) (σ : HDWalletState) : list (Saga.Effect Eff) :=
  Saga.trace
    (middleware HDWalletState reducer st_network st_accountQueue st_asset
       selectWallet_mock getAssetBalance_mock)
    s σ.

Definition inputPayload_connect (asset0 : Asset) : ConnectPayload :=
  {| walletId := "LEDGER_NANO_S_NEW";
     dpaths := [fExtendedDPath];
     network := fNetwork;
     asset := asset0;
     setSession := λ _, () |}.

End HDWallet.

(** * Part II: properties *)

(** ** The store provider *)

Section StoreProviderFacts.

Import StoreProvider.

Variable r : Render.

(** *** Reading the cache *)

Lemma read_Some cache key account :
  read cache key = Some account ↔ cache !! key = Some (Some account).
Proof.
  unfold read. destruct (cache !! key) as [[a|]|]; split; congruence.
Qed.

Lemma read_insert_eq cache key v : read (<[key := v]> cache) key = v.
Proof. unfold read. by rewrite lookup_insert_eq. Qed.

Lemma read_insert_ne cache key key' v :
  key ≠ key' → read (<[key := v]> cache) key' = read cache key'.
Proof. intros Hne. unfold read. by rewrite lookup_insert_ne. Qed.

Lemma isEmpty_true account : isEmpty account = true ↔ account = None.
Proof. destruct account; simpl; split; congruence. Qed.

(** *** What the two cache functions compute *)

Lemma deleteAccountFromCache_run account w :
  deleteAccountFromCache r account w =
    (Normal (),
     mkWorld (<[a_uuid account := Some account]> (accountRestoreState w))
             (calls w ++
                [deleteAccount account;
                 updateSettingsAccounts
                   (filter (λ dashboardUUID, dashboardUUID ≠ a_uuid account)
                           (settings_dashboardAccounts r));
                 dispatch (deleteMembership (a_address account) (a_networkId account))])
             (clockReads w) (uuidsDrawn w)).
Proof.
  unfold deleteAccountFromCache, bind, setAccountRestore, issue. simpl.
  by rewrite <- !app_assoc.
Qed.

Lemma restoreDeletedAccount_throws accountRestore accountId w :
  read accountRestore accountId = None →
  restoreDeletedAccount accountRestore accountId w = (Throw restoreError, w).
Proof. intros Hread. unfold restoreDeletedAccount. by rewrite Hread. Qed.

Lemma restoreDeletedAccount_run accountRestore accountId account w :
  read accountRestore accountId = Some account →
  restoreDeletedAccount accountRestore accountId w =
    (Normal (),
     mkWorld (<[a_uuid account := None]> (accountRestoreState w))
             (calls w ++ [dispatch (addAccounts [account])])
             (clockReads w) (uuidsDrawn w)).
Proof. intros Hread. unfold restoreDeletedAccount. by rewrite Hread. Qed.

(** *** The cache invariant *)

Lemma keyed_by_uuid_insert_Some cache account :
  keyed_by_uuid cache →
  keyed_by_uuid (<[a_uuid account := Some account]> cache).
Proof.
  intros Hk key a. rewrite lookup_insert.
  case_decide as Heq; [intros [= <-]; done | apply Hk].
Qed.

Lemma keyed_by_uuid_insert_None cache key :
  keyed_by_uuid cache → keyed_by_uuid (<[key := None]> cache).
Proof.
  intros Hk key' a. rewrite lookup_insert.
  case_decide as Heq; [discriminate | apply Hk].
Qed.

Lemma reachable_keyed_by_uuid cache : reachable r cache → keyed_by_uuid cache.
Proof.
  induction 1 as [|w account _ IH|w accountRestore accountId _ _ _ IH].
  - intros key a. by rewrite lookup_empty.
  - rewrite deleteAccountFromCache_run. simpl.
    by apply keyed_by_uuid_insert_Some.
  - destruct (read accountRestore accountId) as [account|] eqn:Hread.
    + rewrite (restoreDeletedAccount_run _ _ account) by done. simpl.
      by apply keyed_by_uuid_insert_None.
    + by rewrite restoreDeletedAccount_throws.
Qed.

(** C6. [restoreDeletedAccount accountId] throws the error 'Unable to restore
    account! No account with id specified.' exactly when the restore cache
    holds no account under [accountId], and then issues no call and leaves
    the cache as it was. When an account is held under [accountId], the
    function returns normally, dispatches [addAccounts] with that single
    account and sets the cache entry of the account's uuid to [undefined],
    keeping the other entries; the cache of the running provider holds every
    account under its own uuid, so there the entry of [accountId] is reset
    and a second restore of the same id, run against the updated cache,
    throws. *)
Theorem restoreDeletedAccount_spec accountRestore accountId w :
  match read accountRestore accountId with
  | None =>
      restoreDeletedAccount accountRestore accountId w = (Throw restoreError, w)
  | Some account =>
      ∃ w', restoreDeletedAccount accountRestore accountId w = (Normal (), w')
        ∧ calls w' = calls w ++ [dispatch (addAccounts [account])]
        ∧ accountRestoreState w' = <[a_uuid account := None]> (accountRestoreState w)
        ∧ (reachable r accountRestore →
             accountRestoreState w' !! accountId = Some None
             ∧ (∀ key, key ≠ accountId →
                  accountRestoreState w' !! key = accountRestoreState w !! key)
             ∧ restoreDeletedAccount (accountRestoreState w') accountId w'
               = (Throw restoreError, w'))
  end.
Proof.
  destruct (read accountRestore accountId) as [account|] eqn:Hread.
  - eexists. split; [by apply restoreDeletedAccount_run|].
    simpl. split; [done|]. split; [done|]. intros Hreach.
    assert (a_uuid account = accountId) as ->.
    { apply (reachable_keyed_by_uuid _ Hreach). by apply read_Some. }
    repeat split.
    + apply lookup_insert_eq.
    + intros key Hne. by apply lookup_insert_ne.
    + apply restoreDeletedAccount_throws. simpl. apply read_insert_eq.
  - by apply restoreDeletedAccount_throws.
Qed.

(** The dashboard list handed to [updateSettingsAccounts] is the old one with
    the deleted uuid, and only it, removed. *)
Lemma dashboard_filter_spec account dashboardUUID :
  dashboardUUID ∈ filter (λ dashboardUUID, dashboardUUID ≠ a_uuid account)
                         (settings_dashboardAccounts r)
  ↔ dashboardUUID ∈ settings_dashboardAccounts r ∧ dashboardUUID ≠ a_uuid account.
Proof. rewrite list_elem_of_filter. tauto. Qed.

(** C7. Delete-then-restore is a round trip. [deleteAccountFromCache account]
    stores the account in the restore cache under its uuid, calls
    [deleteAccount] on it, updates the dashboard accounts to the previous ones
    without its uuid, and dispatches [deleteMembership] for its address and
    network; [restoreDeletedAccount (uuid account)] run after it dispatches
    [addAccounts] with exactly that account and clears the cache entry. *)
Theorem delete_then_restore_roundtrip account w :
  ∃ w1 w2 dashboardAccounts,
    deleteAccountFromCache r account w = (Normal (), w1)
    ∧ read (accountRestoreState w1) (a_uuid account) = Some account
    ∧ calls w1 =
        calls w ++
          [deleteAccount account;
           updateSettingsAccounts dashboardAccounts;
           dispatch (deleteMembership (a_address account) (a_networkId account))]
    ∧ (∀ dashboardUUID,
         dashboardUUID ∈ dashboardAccounts
         ↔ dashboardUUID ∈ settings_dashboardAccounts r
           ∧ dashboardUUID ≠ a_uuid account)
    ∧ restoreDeletedAccount (accountRestoreState w1) (a_uuid account) w1
      = (Normal (), w2)
    ∧ calls w2 = calls w1 ++ [dispatch (addAccounts [account])]
    ∧ accountRestoreState w2 !! a_uuid account = Some None
    ∧ read (accountRestoreState w2) (a_uuid account) = None.
Proof.
  eexists _, _, _. split; [apply deleteAccountFromCache_run|]. simpl.
  split; [apply read_insert_eq|]. split; [done|].
  split; [apply dashboard_filter_spec|].
  split.
  { apply restoreDeletedAccount_run. simpl. apply read_insert_eq. }
  simpl. split; [done|]. split; [apply lookup_insert_eq | apply read_insert_eq].
Qed.

(** *** Adding accounts *)

Lemma truthy_is_Some {A} (v : option A) : truthy v ↔ is_Some v.
Proof.
  destruct v; simpl; split; done.
Qed.

Lemma filter_nil_Forall {A} (P : A → Prop) `{!∀ x, Decision (P x)} (l : list A) :
  filter P l = [] ↔ Forall (λ x, ¬ P x) l.
Proof.
  induction l as [|x l IH]; [by split|].
  rewrite filter_cons, Forall_cons. case_decide as HP.
  - split; [discriminate | tauto].
  - rewrite IH. tauto.
Qed.

Lemma filter_fmap_comm {A B} (f : A → B) (P : B → Prop) `{!∀ y, Decision (P y)}
  (l : list A) :
  filter P (f <$> l) = f <$> filter (λ x, P (f x)) l.
Proof.
  induction l as [|x l IH]; [done|].
  rewrite fmap_cons, !filter_cons. case_decide; by rewrite IH.
Qed.

(** [accountsToAdd]: the inputs whose address has no account on the network. *)
Lemma accountsToAdd_filter networkId (newAccounts : list IAddAccount) :
  filter (λ a, negb (truthy (getAccountByAddressAndNetworkName r
                               (add_address a) networkId)))
         newAccounts
  = filter (λ a, ¬ hasAccount r networkId (add_address a)) newAccounts.
Proof.
  apply list_filter_iff. intros a. unfold hasAccount.
  rewrite <- truthy_is_Some. apply negb_True.
Qed.

Lemma accountsToAdd_nil networkId (newAccounts : list IAddAccount) :
  filter (λ a, ¬ hasAccount r networkId (add_address a)) newAccounts = []
  ↔ Forall (λ a, hasAccount r networkId (add_address a)) newAccounts.
Proof.
  rewrite filter_nil_Forall. apply Forall_proper; [|done].
  intros a. split; [apply dec_stable | tauto].
Qed.

Lemma mapM_rawAccounts networkId walletType newAsset accountsToAdd w :
  mapM (λ a, bind (now r)
               (λ mtime, ret (rawAccountOf r networkId walletType newAsset a mtime)))
       accountsToAdd w
  = (Normal (rawAccountsFrom r networkId walletType newAsset (clockReads w) accountsToAdd),
     mkWorld (accountRestoreState w) (calls w)
             (clockReads w + length accountsToAdd) (uuidsDrawn w)).
Proof.
  unfold rawAccountsFrom.
  revert w. induction accountsToAdd as [|a l IH]; intros w.
  - simpl. unfold ret. destruct w; simpl. by rewrite Nat.add_0_r.
  - cbn [mapM]. unfold bind at 1. unfold bind at 1. unfold now at 1, ret at 1.
    unfold bind at 1. rewrite IH. cbn [clockReads accountRestoreState calls uuidsDrawn].
    unfold ret. rewrite imap_cons, Nat.add_0_r. do 2 f_equal.
    + f_equal. apply imap_ext. intros i x _. simpl. by rewrite Nat.add_succ_r.
    + simpl. by rewrite Nat.add_succ_r.
Qed.

Lemma rawAccountsFrom_addresses networkId walletType newAsset k accountsToAdd :
  a_address <$> rawAccountsFrom r networkId walletType newAsset k accountsToAdd
  = add_address <$> accountsToAdd.
Proof.
  unfold rawAccountsFrom. rewrite fmap_imap.
  rewrite <- (imap_const add_address). by apply imap_ext.
Qed.

Lemma rawAccountsFrom_fresh networkId walletType newAsset k accountsToAdd :
  Forall (λ account, freshRawAccount r networkId account ∧ a_networkId account = networkId)
         (rawAccountsFrom r networkId walletType newAsset k accountsToAdd).
Proof.
  apply Forall_forall. intros account Hin.
  apply list_elem_of_lookup in Hin as [i Hi]. unfold rawAccountsFrom in Hi.
  apply list_lookup_imap_Some in Hi as (a & _ & ->).
  unfold freshRawAccount. simpl. repeat split; eauto.
Qed.

Lemma labelContact_run networkId newLabels rawAccount idx w :
  a_networkId rawAccount = networkId →
  ∃ cs w',
    labelContact r networkId newLabels rawAccount idx w = (Normal (), w')
    ∧ calls w' = calls w ++ cs
    ∧ accountRestoreState w' = accountRestoreState w
    ∧ contactMaintained r networkId newLabels idx rawAccount cs.
Proof.
  intros Hnet. unfold labelContact.
  destruct (getContactByAddressAndNetworkId r (a_address rawAccount) networkId)
    as [existing|] eqn:Hexisting.
  - case_decide as Hlabel.
    + eexists _, _. split; [reflexivity|]. simpl. repeat split.
      by eapply contact_relabelled.
    + exists [], w. unfold ret. rewrite app_nil_r. repeat split.
      by eapply contact_unchanged.
  - eexists _, _. split; [reflexivity|]. simpl. repeat split.
    rewrite Hnet. by apply contact_created.
Qed.

Lemma forEach_labelContact networkId newLabels rawAccounts idx w :
  Forall (λ account, a_networkId account = networkId) rawAccounts →
  ∃ css w',
    forEach_from (labelContact r networkId newLabels) rawAccounts idx w = (Normal (), w')
    ∧ calls w' = calls w ++ concat css
    ∧ accountRestoreState w' = accountRestoreState w
    ∧ length css = length rawAccounts
    ∧ ∀ i rawAccount cs,
        rawAccounts !! i = Some rawAccount → css !! i = Some cs →
        contactMaintained r networkId newLabels (idx + i) rawAccount cs.
Proof.
  revert idx w. induction rawAccounts as [|a l IH]; intros idx w Hnet.
  - exists [], w. simpl. unfold ret. rewrite app_nil_r. repeat split. by intros [|].
  - apply Forall_cons in Hnet as [Ha Hl].
    destruct (labelContact_run networkId newLabels a idx w Ha)
      as (cs & w1 & Hrun & Hcalls & Hcache & Hspec).
    destruct (IH (S idx) w1 Hl) as (css & w2 & Hrun2 & Hcalls2 & Hcache2 & Hlen & Hall).
    exists (cs :: css), w2. cbn [forEach_from]. unfold bind. rewrite Hrun, Hrun2.
    split; [done|]. split.
    { rewrite Hcalls2, Hcalls. simpl. by rewrite app_assoc. }
    split; [congruence|]. split; [simpl; congruence|].
    intros [|i] rawAccount cs'; simpl.
    + intros [= <-] [= <-]. by rewrite Nat.add_0_r.
    + intros Hi Hcs. replace (idx + S i)%nat with (S idx + i)%nat by lia. eauto.
Qed.

(** C3. [addMultipleAccounts networkId walletId newAccounts] never throws. It
    returns [undefined] exactly when [networkId] does not resolve to a known
    network, [newAccounts] is empty, or every input address already has an
    account on that network. Otherwise it returns raw accounts, handed to
    [createMultipleAccountsWithIDs] as its last call, for exactly those input
    addresses (in input order) that had no account on the network; each
    created account has uuid [generateDeterministicAddressUUID networkId
    address], a single asset entry with balance '0', no transactions, and
    [favorite] false. *)
Theorem addMultipleAccounts_result networkId walletId newAccounts w :
  match addMultipleAccounts r networkId walletId newAccounts w with
  | (Throw _, _) => False
  | (Normal None, w') => nothingToAdd r networkId newAccounts ∧ w' = w
  | (Normal (Some newRawAccounts), w') =>
      ¬ nothingToAdd r networkId newAccounts
      ∧ a_address <$> newRawAccounts
        = filter (λ address, ¬ hasAccount r networkId address) (add_address <$> newAccounts)
      ∧ Forall (freshRawAccount r networkId) newRawAccounts
      ∧ last (calls w') = Some (createMultipleAccountsWithIDs newRawAccounts)
  end.
Proof.
  unfold addMultipleAccounts, nothingToAdd.
  destruct (getNetworkById r networkId (networks r)) as [network|] eqn:Hnetwork;
    [|unfold ret; split; [by left | done]].
  destruct newAccounts as [|a0 rest]; [unfold ret; split; [right; by left | done]|].
  cbn [length Nat.eqb]. unfold bind at 1. rewrite mapM_rawAccounts.
  rewrite accountsToAdd_filter.
  set (new := a0 :: rest).
  set (walletType := if decide (walletId = Some (WalletId_WEB3 r)) then _ else _).
  set (newAsset := getNewDefaultAssetTemplateByNetwork r (assets_ r) network).
  pose proof (rawAccountsFrom_addresses networkId walletType newAsset (clockReads w)
                (filter (λ a, ¬ hasAccount r networkId (add_address a)) new)) as Haddresses.
  pose proof (rawAccountsFrom_fresh networkId walletType newAsset (clockReads w)
                (filter (λ a, ¬ hasAccount r networkId (add_address a)) new)) as Hfresh.
  pose proof (accountsToAdd_nil networkId new) as Hnil.
  pose proof (filter_fmap_comm add_address (λ address, ¬ hasAccount r networkId address) new)
    as Hfilter.
  destruct (filter (λ a, ¬ hasAccount r networkId (add_address a)) new)
    as [|x xs] eqn:HtoAdd.
  - cbn. unfold ret. split; [right; right; by apply Hnil|].
    destruct w; simpl. by rewrite Nat.add_0_r.
  - destruct (rawAccountsFrom _ _ _ _ _ _) as [|first others] eqn:Hraws; [done|].
    set (w0 := mkWorld _ _ _ _).
    destruct (forEach_labelContact networkId
                (findMultipleNextUnusedDefaultLabels r (a_wallet first)
                   (length (first :: others)) (contacts r))
                (first :: others) 0 w0)
      as (css & w1 & Hrun & Hcalls & _ & _ & _).
    { eapply Forall_impl; [exact Hfresh|]. by intros ? [_ ?]. }
    unfold forEach, bind. rewrite Hrun. simpl. repeat split.
    + intros [Hn|[Hn|Hn]]; [congruence | discriminate |].
      by apply Hnil in Hn.
    + rewrite <- fmap_cons, Haddresses. symmetry. exact Hfilter.
    + eapply Forall_impl; [exact Hfresh|]. by intros ? [? _].
    + apply last_snoc.
Qed.

(** C4. When [addMultipleAccounts] creates accounts, the calls it makes are,
    for each created account in order, the calls that maintain its contact,
    followed by [createMultipleAccountsWithIDs]: a contact found for the
    account's address and network with the default 'NO_LABEL' label is
    updated to carry the label drawn for that position from
    [findMultipleNextUnusedDefaultLabels]; when none is found a contact with
    that label, the account's address and network and empty notes is created;
    a contact found with another label gets no call. When no account is
    created no call is made. *)
Theorem addMultipleAccounts_contacts networkId walletId newAccounts w :
  match addMultipleAccounts r networkId walletId newAccounts w with
  | (Throw _, _) => False
  | (Normal None, w') => calls w' = calls w
  | (Normal (Some newRawAccounts), w') =>
      ∃ css : list (list Call),
        calls w' = calls w ++ concat css ++ [createMultipleAccountsWithIDs newRawAccounts]
        ∧ length css = length newRawAccounts
        ∧ ∀ idx rawAccount cs,
            newRawAccounts !! idx = Some rawAccount → css !! idx = Some cs →
            contactMaintained r networkId
              (findMultipleNextUnusedDefaultLabels r
                 (newRawAccounts !! 0%nat ≫= a_wallet) (length newRawAccounts)
                 (contacts r))
              idx rawAccount cs
  end.
Proof.
  unfold addMultipleAccounts.
  destruct (getNetworkById r networkId (networks r)) as [network|]; [|done].
  destruct (length newAccounts =? 0)%nat; [done|].
  unfold bind at 1. rewrite mapM_rawAccounts.
  set (accountsToAdd := filter _ newAccounts).
  set (walletType := if decide (walletId = Some (WalletId_WEB3 r)) then _ else _).
  set (newAsset := getNewDefaultAssetTemplateByNetwork r (assets_ r) network).
  pose proof (rawAccountsFrom_fresh networkId walletType newAsset (clockReads w)
                accountsToAdd) as Hfresh.
  destruct (rawAccountsFrom _ _ _ _ _ _) as [|first others]; [done|].
  set (w0 := mkWorld _ _ _ _).
  destruct (forEach_labelContact networkId
              (findMultipleNextUnusedDefaultLabels r (a_wallet first)
                 (length (first :: others)) (contacts r))
              (first :: others) 0 w0)
    as (css & w1 & Hrun & Hcalls & _ & Hlen & Hall).
  { eapply Forall_impl; [exact Hfresh|]. by intros ? [_ ?]. }
  unfold forEach, bind. rewrite Hrun. simpl.
  exists css. rewrite Hcalls. split; [by rewrite <- app_assoc|]. split; [done|].
  intros idx rawAccount cs Hidx Hcs. by apply (Hall idx).
Qed.

End StoreProviderFacts.

Section StoreProviderSamples.

Import StoreProvider.

(** A deleted account is restored once; the second restore throws. *)
Lemma restoreDeletedAccount_spec_witness :
  reachable sampleRender
    (accountRestoreState (deleteAccountFromCache sampleRender sampleAccount emptyWorld).2)
  ∧ ∃ w1 w2,
      w1 = (deleteAccountFromCache sampleRender sampleAccount emptyWorld).2
      ∧ restoreDeletedAccount (accountRestoreState w1) "u1" w1 = (Normal (), w2)
      ∧ calls w2 = calls w1 ++ [dispatch (addAccounts [sampleAccount])]
      ∧ restoreDeletedAccount (accountRestoreState w2) "u1" w2 = (Throw restoreError, w2).
Proof.
  assert (reachable sampleRender
            (accountRestoreState
               (deleteAccountFromCache sampleRender sampleAccount emptyWorld).2))
    as Hreach.
  { apply (reachable_delete sampleRender emptyWorld sampleAccount).
    apply reachable_initial. }
  split; [exact Hreach|].
  pose proof (restoreDeletedAccount_spec sampleRender
                (accountRestoreState
                   (deleteAccountFromCache sampleRender sampleAccount emptyWorld).2)
                "u1"
                (deleteAccountFromCache sampleRender sampleAccount emptyWorld).2)
    as Hspec.
  rewrite deleteAccountFromCache_run in Hspec. simpl in Hspec.
  rewrite read_insert_eq in Hspec.
  destruct Hspec as (w2 & Hrun & Hcalls & _ & Hthen).
  rewrite deleteAccountFromCache_run in Hreach. simpl in Hreach.
  destruct (Hthen Hreach) as (_ & _ & Hagain).
  eexists _, w2. split; [reflexivity|].
  split; [exact Hrun|]. split; [exact Hcalls | exact Hagain].
Defined.

(** A run of [addMultipleAccounts] on the sample render: 0xA already has an
    account; 0xB has a contact with the default label, 0xC a contact with a
    label of its own, 0xD none. *)
Lemma addMultipleAccounts_sample :
  let newAccounts :=
    [ mkAddAccount "0xA" "m/0"; mkAddAccount "0xB" "m/1";
      mkAddAccount "0xC" "m/2"; mkAddAccount "0xD" "m/3" ] in
  let '(result, w') :=
    addMultipleAccounts sampleRender "Ethereum" (Some "LEDGER_NANO_S") newAccounts
      emptyWorld in
  (match result with
   | Normal (Some accounts) => a_address <$> accounts
   | _ => []
   end) = ["0xB"; "0xC"; "0xD"]
  ∧ take 2 (calls w')
    = [ updateContact
          {| c_label := Some "Ledger Account 1"; c_address := "0xB"; c_notes := "";
             c_network := "Ethereum"; c_uuid := "c-b" |};
        createContact
          {| c_label := Some "Ledger Account 3"; c_address := "0xD"; c_notes := "";
             c_network := "Ethereum"; c_uuid := "uuid-0" |} ]
  ∧ length (calls w') = 3%nat.
Proof. vm_compute. done. Qed.

End StoreProviderSamples.

(** ** Totals *)

Section TotalsFacts.

Variable accounts : list StoreAccount.
Variable Bigish : Type.
Variable number : Type.
Variable number_0 : number.
Variable bigify : StoreProvider.BigifyInput number → Bigish.
Variable plus : Bigish → Bigish → Bigish.
Variable convertToFiatFromAsset : StoreAsset → option number → string.
Variable getTotalByAsset : list StoreAsset → list (TUuid * StoreAsset).

Local Abbreviation assets := (StoreProvider.assets accounts).
Local Abbreviation totals := (StoreProvider.totals accounts getTotalByAsset).
Local Abbreviation totalFiat :=
  (StoreProvider.totalFiat accounts Bigish number number_0 bigify plus
     convertToFiatFromAsset getTotalByAsset).
Local Abbreviation sumFrom := (StoreProvider.sumFrom Bigish plus).
Local Abbreviation fiatOf :=
  (StoreProvider.fiatOf Bigish number bigify convertToFiatFromAsset).

Lemma foldl_sumFrom {A} (f : A → Bigish) (l : list A) (start : Bigish) :
  foldl (λ sum x, plus sum (f x)) start l = sumFrom start (f <$> l).
Proof. revert start. induction l as [|x l IH]; intros start; simpl; [done|apply IH]. Qed.

Lemma flat_map_concat {A B} (f : A → list B) (l : list A) :
  flat_map f l = concat (f <$> l).
Proof. induction l as [|x l IH]; simpl; [done|by rewrite IH]. Qed.

(** C5. For every selection of accounts (all accounts when none is given) and
    every rate function: [assets selected] is the concatenation, in order, of
    the asset lists of the selected accounts; [totals selected] is the values
    of [getTotalByAsset] applied to those assets; [totalFiat selected rate] is
    the sum, starting from [bigify 0], over the aggregated assets of the fiat
    conversion of each asset at its rate. *)
Theorem totalFiat_spec selectedAccounts getAssetRate :
  let selected := default accounts selectedAccounts in
  assets selectedAccounts = concat (sa_assets <$> selected)
  ∧ totals selectedAccounts
    = StoreProvider.Object_values (getTotalByAsset (concat (sa_assets <$> selected)))
  ∧ totalFiat selectedAccounts getAssetRate
    = sumFrom (bigify (StoreProvider.OfNumber number_0))
              (fiatOf getAssetRate <$> totals selectedAccounts).
Proof.
  intros selected.
  assert (assets selectedAccounts = concat (sa_assets <$> selected)) as Hassets.
  { unfold StoreProvider.assets. apply flat_map_concat. }
  assert (totals (Some selected) = totals selectedAccounts) as Htotals.
  { by destruct selectedAccounts. }
  split; [done|]. split.
  - unfold StoreProvider.totals. fold selected. unfold StoreProvider.assets. simpl.
    by rewrite flat_map_concat.
  - unfold StoreProvider.totalFiat. fold selected. rewrite Htotals.
    apply (foldl_sumFrom (fiatOf getAssetRate)).
Qed.

(** The selection distributes over appended account lists. *)
Lemma assets_app (l1 l2 : list StoreAccount) :
  assets (Some (l1 ++ l2)) = assets (Some l1) ++ assets (Some l2).
Proof. unfold StoreProvider.assets. simpl. apply flat_map_app. Qed.

End TotalsFacts.

(** ** Sagas *)

Section SagaFacts.

Variable E : Type → Type.
Variable Store : Type.
Variable handle : ∀ X, E X → Store → X * Store.

Lemma run_bind {A B} (s : Saga.t E A) (f : A → Saga.t E B) σ :
  Saga.run handle (Saga.bind s f) σ =
    let '(effects, a, σ') := Saga.run handle s σ in
    let '(effects', b, σ'') := Saga.run handle (f a) σ' in
    (effects ++ effects', b, σ'').
Proof.
  revert σ. induction s as [a|X e k IH]; intros σ; simpl.
  - by destruct (Saga.run handle (f a) σ) as [[? ?] ?].
  - destruct (handle X e σ) as [x σ1]. rewrite IH.
    destruct (Saga.run handle (k x) σ1) as [[effects a] σ2].
    by destruct (Saga.run handle (f a) σ2) as [[effects' b] σ3].
Qed.

End SagaFacts.

(** ** The persistence slice *)

Section PersistenceFacts.

Import Persistence.

Variable SliceState : Type.
Variable Action : Type.
Variable reducer :
  Slice → option (SubState SliceState) → Action → SubState SliceState.
Variable initialLegacyState_version : string.
Variable APP_PERSIST_CONFIG_key : string.

Local Abbreviation combineReducers := (Persistence.combineReducers SliceState Action).
Local Abbreviation version_reducer :=
  (Persistence.version_reducer SliceState Action initialLegacyState_version).
Local Abbreviation persistenceReducer :=
  (Persistence.persistenceReducer SliceState Action reducer initialLegacyState_version).
Local Abbreviation handleRehydrateSuccess :=
  (Persistence.handleRehydrateSuccess APP_PERSIST_CONFIG_key).
Local Abbreviation VersionOf := (Persistence.VersionOf SliceState).

(** *** Keys of the persisted state and of the schema *)

Lemma object_keys {V} (entries : list (string * V)) (k : string) :
  k ∈ dom (object entries) ↔ k ∈ entries.*1.
Proof.
  unfold object.
  by rewrite dom_list_to_map_L, elem_of_list_to_set, fmap_reverse, elem_of_reverse.
Qed.

Lemma object_lookup_first {V} (k : string) (v : V) (entries : list (string * V)) :
  k ∉ entries.*1 → object ((k, v) :: entries) !! k = Some v.
Proof.
  intros Hk. unfold object. rewrite reverse_cons.
  apply elem_of_list_to_map_1'.
  - intros v' Hin. apply elem_of_app in Hin as [Hin|Hin].
    + exfalso. apply Hk. rewrite elem_of_reverse in Hin.
      apply list_elem_of_fmap. exists (k, v'). by split.
    + apply list_elem_of_singleton in Hin. congruence.
  - apply elem_of_app. right. by apply list_elem_of_singleton.
Qed.

Lemma combineReducers_lookup reducers state action (k : string) :
  combineReducers reducers state action !! k
  = (λ r, r (state !! k) action) <$> reducers !! k.
Proof.
  unfold Persistence.combineReducers. rewrite map_lookup_imap.
  by destruct (reducers !! k).
Qed.

Lemma combineReducers_keys reducers state action (k : string) :
  k ∈ dom (combineReducers reducers state action) ↔ k ∈ dom reducers.
Proof.
  rewrite !elem_of_dom, combineReducers_lookup.
  destruct (reducers !! k); simpl; split; intros [? ?]; by eauto.
Qed.

Lemma persistenceReducer_keys state action (k : string) :
  k ∈ dom (persistenceReducer state action) ↔ k ∈ listedSubStates.
Proof. unfold Persistence.persistenceReducer. by rewrite combineReducers_keys, object_keys. Qed.

Lemma SCHEMA_BASE_keys (k : string) :
  k ∈ dom SCHEMA_BASE
  ↔ k ∈ [ "version"; "mtime"; "accounts"; "addressBook"; "assets"; "rates";
          "trackedAssets"; "contracts"; "networks"; "notifications"; "settings";
          "networkNodes"; "userActions" ].
Proof. unfold SCHEMA_BASE. by rewrite object_keys. Qed.

Lemma persistenceReducer_version state action :
  persistenceReducer state action !! "version"
  = Some (VersionOf initialLegacyState_version).
Proof.
  unfold Persistence.persistenceReducer. rewrite combineReducers_lookup.
  unfold Persistence.persistenceReducer_entries. rewrite object_lookup_first; [done|].
  simpl. intros Hin. repeat (apply elem_of_cons in Hin as [Hin|Hin]; [discriminate|]).
  by apply elem_of_nil in Hin.
Qed.

(** C8 (as the code has it). The persisted state, under the slice name
    'database', is composed of exactly the sub-states version, accounts,
    assets, rates, trackedAssets, addressBook, contracts, networks,
    notifications, settings and userActions. Each of them is a key of
    [SCHEMA_BASE], whose version is 'v2.0.0' and whose keys are these and two
    more, mtime and [LSKeys.NETWORK_NODES], that are not sub-states of the
    persisted state. For every action the version reducer ignores the action
    and the previous value and returns [initialLegacyState.version], so the
    version sub-state is that value after every action and does not change
    from one action to the next. *)
Theorem persisted_state_composition state action :
  slice_name = "database"
  ∧ (∀ k, k ∈ dom (persistenceReducer state action) ↔ k ∈ listedSubStates)
  ∧ (∀ k, k ∈ dom SCHEMA_BASE
          ↔ k ∈ listedSubStates ∨ k = "mtime" ∨ k = LSKeys_value NETWORK_NODES)
  ∧ ("mtime" ∉ listedSubStates)
  ∧ (LSKeys_value NETWORK_NODES ∉ listedSubStates)
  ∧ SCHEMA_BASE !! "version" = Some (Str "v2.0.0")
  ∧ (∀ previous, version_reducer previous action = VersionOf initialLegacyState_version)
  ∧ persistenceReducer state action !! "version"
    = Some (VersionOf initialLegacyState_version)
  ∧ (∀ action', persistenceReducer (persistenceReducer state action) action' !! "version"
                = persistenceReducer state action !! "version").
Proof.
  split; [done|]. split; [apply persistenceReducer_keys|]. split.
  { intros k. rewrite SCHEMA_BASE_keys. unfold listedSubStates. simpl.
    rewrite !elem_of_cons, !elem_of_nil. tauto. }
  split.
  { unfold listedSubStates. rewrite !not_elem_of_cons, elem_of_nil.
    repeat split; (discriminate || tauto). }
  split.
  { unfold listedSubStates. simpl. rewrite !not_elem_of_cons, elem_of_nil.
    repeat split; (discriminate || tauto). }
  split.
  { unfold SCHEMA_BASE, SCHEMA_BASE_entries. rewrite object_lookup_first; [done|].
    simpl. intros Hin.
    repeat (apply elem_of_cons in Hin as [Hin|Hin]; [discriminate|]).
    by apply elem_of_nil in Hin. }
  split; [done|]. split; [apply persistenceReducer_version|].
  intros action'. by rewrite !persistenceReducer_version.
Qed.

(** *** The rehydration saga *)

Lemma handleRehydrateSuccess_trace {Store} (handle : ∀ X, Eff X → Store → X * Store)
  action σ :
  Saga.trace handle (handleRehydrateSuccess action) σ
  = if decide (key action = APP_PERSIST_CONFIG_key) then initEffects else [].
Proof.
  unfold Persistence.handleRehydrateSuccess, Saga.trace. case_decide; [|done].
  simpl.
  repeat match goal with
         | |- context [handle unit ?e ?s] => destruct (handle unit e s) as [[] ?]; simpl
         end.
  done.
Qed.

(** C9. On a REHYDRATE action, [handleRehydrateSuccess] puts [trackInit],
    [fetchAssets], [fetchMemberships], [startRatesPolling], [fetchHistory],
    [startTxPolling] and [fetchENS], in that order and nothing else, if and
    only if the action's key equals [APP_PERSIST_CONFIG.key]; for any other
    key it yields no effect at all. *)
Theorem handleRehydrateSuccess_effects {Store}
  (handle : ∀ X, Eff X → Store → X * Store) action σ :
  (Saga.trace handle (handleRehydrateSuccess action) σ = initEffects
   ↔ key action = APP_PERSIST_CONFIG_key)
  ∧ (Saga.trace handle (handleRehydrateSuccess action) σ = []
     ↔ key action ≠ APP_PERSIST_CONFIG_key).
Proof.
  rewrite handleRehydrateSuccess_trace. unfold initEffects.
  case_decide; split; split; (done || discriminate).
Qed.

End PersistenceFacts.

(** C8 as stated fails where it says that the sub-states match the keys of
    [SCHEMA_BASE]:
    whatever the slices do, the schema has the key mtime and the persisted
    state has no such sub-state. Shown on the state reached from the empty
    state with trivial slice reducers. *)
Lemma persisted_keys_differ_from_schema :
  dom (Persistence.persistenceReducer unit unit
         (λ _ _ _, Persistence.StateOf unit ()) "v2.0.0" ∅ ())
  ≠ dom Persistence.SCHEMA_BASE.
Proof.
  intros Heq.
  assert ("mtime" ∈ dom Persistence.SCHEMA_BASE) as Hin.
  { apply SCHEMA_BASE_keys. rewrite !elem_of_cons. tauto. }
  rewrite <- Heq in Hin. apply persistenceReducer_keys in Hin.
  unfold Persistence.listedSubStates in Hin.
  repeat (apply elem_of_cons in Hin as [Hin|Hin]; [discriminate|]).
  by apply elem_of_nil in Hin.
Qed.


(** ** The HD-wallet workers *)

Section HDWalletFacts.

Import HDWallet.

Variable AppState : Type.
Variable reducer : AppState → Action → AppState.
Variable selectHDWalletNetwork : AppState → option Network.
Variable selectHDWalletAccountQueue : AppState → list DWAccountDisplay.
Variable selectHDWalletAsset : AppState → option Asset.
Variable selectWallet : DPathFormat → DeterministicWallet.
Variable getAssetBalance : BalanceRequest → gmap string Z.

Local Abbreviation middleware :=
  (HDWallet.middleware AppState reducer selectHDWalletNetwork
     selectHDWalletAccountQueue selectHDWalletAsset selectWallet getAssetBalance).

(** *** What the workers yield *)

Lemma requestConnectionWorker_run payload σ :
  Saga.run middleware (requestConnectionWorker payload) σ
  = ([ Saga.Eff (call_selectWallet (walletId payload));
       Saga.Eff (call_initialize (selectWallet (walletId payload)) (head (dpaths payload)));
       Saga.Eff (call_setSession (setSession payload) (selectWallet (walletId payload)));
       Saga.Eff (put requestConnection);
       Saga.Eff (put (requestConnectionSuccess (asset payload) (network payload))) ],
     (),
     reducer (reducer σ requestConnection)
             (requestConnectionSuccess (asset payload) (network payload))).
Proof. reflexivity. Qed.

Lemma getAccountsWorker_run payload σ :
  Saga.run middleware (getAccountsWorker payload) σ
  = ([ Saga.Eff (put requestAddresses);
       Saga.Eff (call_getMultipleAddresses (session payload) (extendedDPaths payload));
       Saga.Eff (put (enqueueAccounts
                        (getMultipleAddresses (session payload) (extendedDPaths payload))));
       Saga.Eff (put processAccountsQueue) ],
     (),
     reducer (reducer (reducer σ requestAddresses)
                (enqueueAccounts
                   (getMultipleAddresses (session payload) (extendedDPaths payload))))
             processAccountsQueue).
Proof. reflexivity. Qed.

Lemma accountsQueueWorker_run σ :
  let request := mkBalanceRequest (selectHDWalletAsset σ) (selectHDWalletNetwork σ)
                   (address <$> selectHDWalletAccountQueue σ) in
  let update := updateAccounts
                  (withBalance (getAssetBalance request) <$> selectHDWalletAccountQueue σ)
                  (selectHDWalletAsset σ) in
  Saga.run middleware accountsQueueWorker σ
  = ([ Saga.Eff select_HDWalletNetwork;
       Saga.Eff select_HDWalletAccountQueue;
       Saga.Eff select_HDWalletAsset;
       Saga.Eff (call_getAssetBalance request);
       Saga.Eff (put update) ],
     (),
     reducer σ update).
Proof. reflexivity. Qed.

(** C1. For every session and list of extended derivation paths,
    [getAccountsWorker] yields exactly these effects in this order: it
    dispatches [requestAddresses], calls the session's [getMultipleAddresses]
    with the given derivation paths, dispatches [enqueueAccounts] with the
    accounts that call derived, and dispatches [processAccountsQueue]; the
    store it leaves has reduced the enqueue before [processAccountsQueue].
    Any dispatch of [processAccountsQueue] comes after the dispatch of
    [enqueueAccounts], the worker itself fetches no balance, and the worker
    [processAccountsQueue] starts fetches balances for exactly the addresses
    of the accounts in the store's queue. *)
Theorem getAccountsWorker_order session dpaths σ :
  let worker := getAccountsWorker (mkGetAccounts session dpaths) in
  let derived := getMultipleAddresses session dpaths in
  let yielded := Saga.trace middleware worker σ in
  yielded = [ Saga.Eff (put requestAddresses);
              Saga.Eff (call_getMultipleAddresses session dpaths);
              Saga.Eff (put (enqueueAccounts derived));
              Saga.Eff (put processAccountsQueue) ]
  ∧ (Saga.run middleware worker σ).2
    = reducer (reducer (reducer σ requestAddresses) (enqueueAccounts derived))
              processAccountsQueue
  ∧ (∀ i j enqueue process accounts,
       yielded !! i = Some enqueue →
       step_of enqueue = Dispatches (enqueueAccounts accounts) →
       yielded !! j = Some process →
       step_of process = Dispatches processAccountsQueue →
       (i < j)%nat)
  ∧ (∀ e addresses, In e yielded → step_of e ≠ FetchesBalances addresses)
  ∧ (∀ σ' e addresses,
       In e (Saga.trace middleware accountsQueueWorker σ') →
       step_of e = FetchesBalances addresses →
       addresses = address <$> selectHDWalletAccountQueue σ').
Proof.
  intros worker derived yielded.
  assert (yielded = [ Saga.Eff (put requestAddresses);
                      Saga.Eff (call_getMultipleAddresses session dpaths);
                      Saga.Eff (put (enqueueAccounts derived));
                      Saga.Eff (put processAccountsQueue) ]) as Hyielded.
  { unfold yielded, Saga.trace, worker. by rewrite getAccountsWorker_run. }
  split; [exact Hyielded|]. split.
  { unfold worker. by rewrite getAccountsWorker_run. }
  rewrite Hyielded. split.
  { intros i j enqueue process accounts Hi Henqueue Hj Hprocess.
    destruct i as [|[|[|[|i]]]]; simpl in Hi; try discriminate Hi;
      injection Hi as <-; try discriminate Henqueue.
    destruct j as [|[|[|[|j]]]]; simpl in Hj; try discriminate Hj;
      injection Hj as <-; try discriminate Hprocess.
    lia. }
  split.
  { intros e addresses He. simpl in He.
    repeat (destruct He as [<-|He]; [simpl; discriminate|]). done. }
  intros σ' e addresses He. unfold Saga.trace in He.
  rewrite accountsQueueWorker_run in He. simpl in He.
  repeat (destruct He as [<-|He]; [simpl; try discriminate; by intros [= <-]|]).
  done.
Qed.

(** C2. For every connection request carrying a wallet id, derivation paths,
    a network, an asset and a [setSession] callback, [requestConnectionWorker]
    yields exactly these effects in this order: it selects the wallet
    implementation for the wallet id, initializes the resulting session with
    the first derivation path, passes the session to [setSession], dispatches
    [requestConnection], and finally dispatches [requestConnectionSuccess]
    carrying exactly the requested asset and network. *)
Theorem requestConnectionWorker_steps payload σ :
  let session := selectWallet (walletId payload) in
  let yielded := Saga.trace middleware (requestConnectionWorker payload) σ in
  yielded = [ Saga.Eff (call_selectWallet (walletId payload));
              Saga.Eff (call_initialize session (head (dpaths payload)));
              Saga.Eff (call_setSession (setSession payload) session);
              Saga.Eff (put requestConnection);
              Saga.Eff (put (requestConnectionSuccess (asset payload) (network payload))) ]
  ∧ last yielded
    = Some (Saga.Eff (put (requestConnectionSuccess (asset payload) (network payload))))
  ∧ (Saga.run middleware (requestConnectionWorker payload) σ).2
    = reducer (reducer σ requestConnection)
              (requestConnectionSuccess (asset payload) (network payload)).
Proof.
  intros session yielded. unfold yielded, Saga.trace.
  by rewrite requestConnectionWorker_run.
Qed.

End HDWalletFacts.

(** *** The scenarios of [hdWallet.slice.test.ts] *)

Section HDWalletTests.

Import HDWallet.

(** 'attempts to connect to a hierarchical deterministic wallet given walletId' *)
Lemma requestConnectionWorker_test reducer σ asset0 :
  let inputPayload := inputPayload_connect asset0 in
  Saga.expectSaga
    (runTest reducer (requestConnectionWorker inputPayload) σ)
    [ Saga.Eff (call_selectWallet (walletId inputPayload));
      Saga.Eff (call_initialize ledgerMock (dpaths inputPayload !! 0%nat));
      Saga.Eff (call_setSession (setSession inputPayload) ledgerMock);
      Saga.Eff (put requestConnection);
      Saga.Eff (put (requestConnectionSuccess (asset inputPayload) (network inputPayload))) ].
Proof.
  intros inputPayload e He. unfold runTest, Saga.trace. simpl in *. tauto.
Qed.

(** 'attempts to fetch a collection of account addresses given specified dpaths' *)
Lemma getAccountsWorker_test reducer σ :
  let inputPayload := mkGetAccounts ledgerMock [fExtendedDPath] in
  Saga.expectSaga
    (runTest reducer (getAccountsWorker inputPayload) σ)
    [ Saga.Eff (put requestAddresses);
      Saga.Eff (call_getMultipleAddresses ledgerMock (extendedDPaths inputPayload));
      Saga.Eff (put (enqueueAccounts [fDWAccountDisplayPreBalance]));
      Saga.Eff (put processAccountsQueue) ].
Proof.
  intros inputPayload e He. unfold runTest, Saga.trace. simpl in *. tauto.
Qed.

(** 'fetches balances for accountQueue in state' *)
Lemma accountsQueueWorker_test reducer :
  let beginningState :=
    {| st_network := Some fNetwork;
       st_asset := fAssets !! 1%nat;
       st_accountQueue := [fDWAccountDisplayPreBalance] |} in
  Saga.expectSaga
    (runTest reducer accountsQueueWorker beginningState)
    [ Saga.Eff select_HDWalletNetwork;
      Saga.Eff select_HDWalletAccountQueue;
      Saga.Eff select_HDWalletAsset;
      Saga.Eff (put (updateAccounts [fDWAccountDisplay] (st_asset beginningState))) ].
Proof.
  intros beginningState e He. unfold runTest, Saga.trace.
  rewrite accountsQueueWorker_run. simpl in *. tauto.
Qed.

End HDWalletTests.

(** ** Further properties of the store provider *)

Section StoreProviderMore.

Import StoreProvider.

Variable r : Render.

(** *** [addMultipleAccounts], step by step *)

Lemma length_rawAccountsFrom networkId walletType newAsset k accountsToAdd :
  length (rawAccountsFrom r networkId walletType newAsset k accountsToAdd)
  = length accountsToAdd.
Proof. unfold rawAccountsFrom. apply length_imap. Qed.

Lemma addMultipleAccounts_unfold networkId walletId newAccounts w :
  addMultipleAccounts r networkId walletId newAccounts w =
  match getNetworkById r networkId (networks r) with
  | None => (Normal None, w)
  | Some network =>
      let newRawAccounts :=
        rawAccountsFrom r networkId
          (if decide (walletId = Some (WalletId_WEB3 r)) then web3WalletId r else walletId)
          (getNewDefaultAssetTemplateByNetwork r (assets_ r) network)
          (clockReads w)
          (filter (λ a, ¬ hasAccount r networkId (add_address a)) newAccounts) in
      match newRawAccounts with
      | [] => (Normal None, w)
      | first :: _ =>
          match forEach_from
                  (labelContact r networkId
                     (findMultipleNextUnusedDefaultLabels r (a_wallet first)
                        (length newRawAccounts) (contacts r)))
                  newRawAccounts 0
                  (mkWorld (accountRestoreState w) (calls w)
                     (clockReads w + length newRawAccounts) (uuidsDrawn w)) with
          | (Normal _, w1) =>
              (Normal (Some newRawAccounts),
               mkWorld (accountRestoreState w1)
                 (calls w1 ++ [createMultipleAccountsWithIDs newRawAccounts])
                 (clockReads w1) (uuidsDrawn w1))
          | (Throw e, w1) => (Throw e, w1)
          end
      end
  end.
Proof.
  unfold addMultipleAccounts.
  destruct (getNetworkById r networkId (networks r)) as [network|]; [|done].
  destruct newAccounts as [|a0 rest]; [done|].
  cbn [length Nat.eqb]. unfold bind at 1. rewrite mapM_rawAccounts.
  rewrite accountsToAdd_filter.
  rewrite <- (length_rawAccountsFrom networkId
                (if decide (walletId = Some (WalletId_WEB3 r)) then web3WalletId r else walletId)
                (getNewDefaultAssetTemplateByNetwork r (assets_ r) network) (clockReads w)).
  cbv zeta.
  destruct (rawAccountsFrom _ _ _ _ _ _) as [|first others].
  - unfold ret. destruct w; simpl. by rewrite Nat.add_0_r.
  - unfold forEach, bind.
    destruct (forEach_from _ _ _ _) as [[[]|e] w1]; done.
Qed.

(** One round of the [forEach]: what is issued for one account. *)
Lemma labelContact_step networkId newLabels rawAccount idx w :
  ∃ cs m,
    labelContact r networkId newLabels rawAccount idx w
    = (Normal (),
       mkWorld (accountRestoreState w) (calls w ++ cs) (clockReads w) (uuidsDrawn w + m))
    ∧ Forall isContactCall cs
    ∧ (length cs ≤ 1)%nat
    ∧ contactLabels cs `sublist_of` [newLabels !! idx]
    ∧ createdContactUuids cs = generateUUID r <$> seq (uuidsDrawn w) m.
Proof.
  unfold labelContact.
  destruct (getContactByAddressAndNetworkId r (a_address rawAccount) networkId)
    as [existing|].
  - case_decide.
    + eexists [_], 0%nat. unfold issue. rewrite Nat.add_0_r.
      split; [done|]. split; [by repeat constructor|]. split; [done|].
      split; [done|done].
    + exists [], 0%nat. unfold ret. rewrite app_nil_r, Nat.add_0_r.
      split; [by destruct w|]. split; [constructor|]. split; [simpl; lia|].
      split; [apply sublist_nil_l|done].
  - eexists [_], 1%nat. unfold bind, freshUUID, issue. simpl.
    rewrite Nat.add_1_r.
    split; [done|]. split; [by repeat constructor|]. split; [done|].
    split; [done|done].
Qed.

Lemma forEach_labelContact_calls networkId newLabels rawAccounts idx w :
  ∃ cs m,
    forEach_from (labelContact r networkId newLabels) rawAccounts idx w
    = (Normal (),
       mkWorld (accountRestoreState w) (calls w ++ cs) (clockReads w) (uuidsDrawn w + m))
    ∧ Forall isContactCall cs
    ∧ (length cs ≤ length rawAccounts)%nat
    ∧ contactLabels cs
      `sublist_of` ((λ i, newLabels !! i) <$> seq idx (length rawAccounts))
    ∧ createdContactUuids cs = generateUUID r <$> seq (uuidsDrawn w) m.
Proof.
  revert idx w. induction rawAccounts as [|a l IH]; intros idx w.
  - exists [], 0%nat. simpl. unfold ret. rewrite app_nil_r, Nat.add_0_r.
    split; [by destruct w|]. split; [constructor|]. split; [done|].
    split; [constructor|done].
  - destruct (labelContact_step networkId newLabels a idx w)
      as (cs1 & m1 & Hrun1 & Hkind1 & Hlen1 & Hlabels1 & Huuids1).
    destruct (IH (S idx)
                (mkWorld (accountRestoreState w) (calls w ++ cs1) (clockReads w)
                   (uuidsDrawn w + m1)))
      as (cs2 & m2 & Hrun2 & Hkind2 & Hlen2 & Hlabels2 & Huuids2).
    exists (cs1 ++ cs2), (m1 + m2)%nat. cbn [forEach_from]. unfold bind.
    rewrite Hrun1, Hrun2. simpl.
    split; [by rewrite <- app_assoc, Nat.add_assoc|].
    split; [by apply Forall_app|].
    split; [rewrite length_app; lia|].
    split.
    + unfold contactLabels in *. rewrite omap_app.
      simpl. by apply (sublist_app _ [newLabels !! idx]).
    + unfold createdContactUuids in *. rewrite omap_app, Huuids1, Huuids2. simpl.
      by rewrite seq_app, fmap_app.
Qed.

(** The whole run, when accounts are created. *)
Lemma addMultipleAccounts_created networkId walletId newAccounts w :
  match addMultipleAccounts r networkId walletId newAccounts w with
  | (Throw _, _) => False
  | (Normal None, w') => w' = w
  | (Normal (Some newRawAccounts), w') =>
      ∃ network cs m,
        getNetworkById r networkId (networks r) = Some network
        ∧ newRawAccounts
          = rawAccountsFrom r networkId
              (if decide (walletId = Some (WalletId_WEB3 r)) then web3WalletId r
               else walletId)
              (getNewDefaultAssetTemplateByNetwork r (assets_ r) network)
              (clockReads w)
              (filter (λ a, ¬ hasAccount r networkId (add_address a)) newAccounts)
        ∧ w' = mkWorld (accountRestoreState w)
                 (calls w ++ cs ++ [createMultipleAccountsWithIDs newRawAccounts])
                 (clockReads w + length newRawAccounts) (uuidsDrawn w + m)
        ∧ Forall isContactCall cs
        ∧ (length cs ≤ length newRawAccounts)%nat
        ∧ contactLabels cs
          `sublist_of`
          ((λ i, findMultipleNextUnusedDefaultLabels r
                   (newRawAccounts !! 0%nat ≫= a_wallet) (length newRawAccounts)
                   (contacts r) !! i)
             <$> seq 0 (length newRawAccounts))
        ∧ createdContactUuids cs = generateUUID r <$> seq (uuidsDrawn w) m
  end.
Proof.
  rewrite addMultipleAccounts_unfold.
  destruct (getNetworkById r networkId (networks r)) as [network|]; [|done].
  cbv zeta.
  destruct (rawAccountsFrom _ _ _ _ _ _) as [|first others] eqn:Hraws; [done|].
  set (newLabels := findMultipleNextUnusedDefaultLabels r _ _ _).
  set (w0 := mkWorld _ _ _ _).
  destruct (forEach_labelContact_calls networkId newLabels (first :: others) 0 w0)
    as (cs & m & Hrun & Hkind & Hlen & Hlabels & Huuids).
  rewrite Hrun. exists network, cs, m. simpl.
  split; [done|]. split; [done|]. split; [by rewrite <- app_assoc|].
  repeat split; done.
Qed.

Lemma assetMtimes_rawAccountsFrom networkId walletType newAsset k accountsToAdd :
  assetMtimes (rawAccountsFrom r networkId walletType newAsset k accountsToAdd)
  = Date_now r <$> seq k (length accountsToAdd).
Proof.
  unfold rawAccountsFrom, assetMtimes.
  revert k. induction accountsToAdd as [|a l IH]; intros k; [done|].
  rewrite imap_cons. simpl. rewrite Nat.add_0_r. f_equal.
  rewrite <- IH. f_equal. apply imap_ext. intros i x _. simpl.
  by rewrite Nat.add_succ_r.
Qed.

Lemma lookups_take {A} (l : list A) (n : nat) :
  (n ≤ length l)%nat → (λ i, l !! i) <$> seq 0 n = Some <$> take n l.
Proof.
  revert l. induction n as [|n IH]; intros l Hn; [done|].
  destruct l as [|x l]; [simpl in Hn; lia|].
  simpl. f_equal. rewrite <- fmap_S_seq, <- list_fmap_compose.
  apply IH. simpl in Hn. lia.
Qed.

Lemma sublist_fmap_inv {A B} (f : A → B) (k : list B) (l : list A) :
  k `sublist_of` f <$> l → ∃ l', k = f <$> l' ∧ l' `sublist_of` l.
Proof.
  revert k. induction l as [|x l IH]; intros k Hk.
  - apply sublist_nil_r in Hk as ->. by exists [].
  - rewrite fmap_cons in Hk. apply sublist_cons_r in Hk as [Hk|(k' & -> & Hk)].
    + destruct (IH _ Hk) as (l' & -> & Hl'). exists l'. split; [done|].
      by apply sublist_cons.
    + destruct (IH _ Hk) as (l' & -> & Hl'). exists (x :: l'). split; [done|].
      by apply sublist_skip.
Qed.

Lemma contactLabels_snoc cs accounts :
  contactLabels (cs ++ [createMultipleAccountsWithIDs accounts]) = contactLabels cs.
Proof. unfold contactLabels. rewrite omap_app. simpl. apply app_nil_r. Qed.

Lemma createdContactUuids_snoc cs accounts :
  createdContactUuids (cs ++ [createMultipleAccountsWithIDs accounts])
  = createdContactUuids cs.
Proof. unfold createdContactUuids. rewrite omap_app. simpl. apply app_nil_r. Qed.

(** X1. Every account [addMultipleAccounts] creates carries the address and
    derivation path of its input (in input order), the given network id,
    [mtime] 0, one asset entry whose uuid is that of the network's default
    asset template, and as wallet the id of the configured web3 provider when
    the given wallet id is [WEB3], the given wallet id otherwise. *)
Theorem addMultipleAccounts_account_fields networkId walletId newAccounts w :
  match (addMultipleAccounts r networkId walletId newAccounts w).1 with
  | Normal (Some newRawAccounts) =>
      (λ a, (a_address a, a_dPath a)) <$> newRawAccounts
      = (λ a, (add_address a, add_dPath a))
          <$> filter (λ a, ¬ hasAccount r networkId (add_address a)) newAccounts
      ∧ ∃ network,
          getNetworkById r networkId (networks r) = Some network
          ∧ Forall (λ a,
                      a_networkId a = networkId
                      ∧ a_mtime a = 0
                      ∧ a_wallet a
                        = (if decide (walletId = Some (WalletId_WEB3 r))
                           then web3WalletId r else walletId)
                      ∧ ab_uuid <$> a_assets a
                        = [as_uuid (getNewDefaultAssetTemplateByNetwork r
                                      (assets_ r) network)])
                   newRawAccounts
  | _ => True
  end.
Proof.
  pose proof (addMultipleAccounts_created networkId walletId newAccounts w) as Hrun.
  destruct (addMultipleAccounts r networkId walletId newAccounts w)
    as [[[newRawAccounts|]|e] w']; simpl; [|done|done].
  destruct Hrun as (network & cs & m & Hnetwork & -> & _).
  split.
  - unfold rawAccountsFrom. rewrite fmap_imap.
    rewrite <- (imap_const (λ a, (add_address a, add_dPath a))). by apply imap_ext.
  - exists network. split; [done|]. apply Forall_forall. intros account Hin.
    apply list_elem_of_lookup in Hin as [i Hi]. unfold rawAccountsFrom in Hi.
    by apply list_lookup_imap_Some in Hi as (a & _ & ->).
Qed.

(** X2. [addMultipleAccounts] never writes the restore cache, and the only
    calls it issues are calls into the contacts, at most one per created
    account, followed by a single [createMultipleAccountsWithIDs]: it never
    dispatches, deletes an account or touches the settings; when it returns
    [undefined] it issues nothing. *)
Theorem addMultipleAccounts_footprint networkId walletId newAccounts w :
  match addMultipleAccounts r networkId walletId newAccounts w with
  | (Throw _, _) => False
  | (Normal result, w') =>
      accountRestoreState w' = accountRestoreState w
      ∧ ∃ cs,
          calls w' = calls w ++ cs
          ∧ match result with
            | None => cs = []
            | Some newRawAccounts =>
                ∃ contactCalls,
                  cs = contactCalls ++ [createMultipleAccountsWithIDs newRawAccounts]
                  ∧ Forall isContactCall contactCalls
                  ∧ (length contactCalls ≤ length newRawAccounts)%nat
            end
  end.
Proof.
  pose proof (addMultipleAccounts_created networkId walletId newAccounts w) as Hrun.
  destruct (addMultipleAccounts r networkId walletId newAccounts w)
    as [[[newRawAccounts|]|e] w']; [| |done].
  - destruct Hrun as (network & cs & m & _ & _ & -> & Hkind & Hlen & _).
    simpl. split; [done|]. eexists. split; [done|]. by exists cs.
  - subst w'. split; [done|]. exists []. by rewrite app_nil_r.
Qed.

(** X3. When [findMultipleNextUnusedDefaultLabels] returns at least as many
    labels as it is asked for, every contact [addMultipleAccounts] creates or
    relabels carries a defined label, and the labels given out are, in order,
    a sub-sequence of the returned labels: no label is given to two contacts
    unless the helper returned it twice. *)
Theorem addMultipleAccounts_labels_defined networkId walletId newAccounts w :
  (∀ wallet n, (n ≤ length newAccounts)%nat →
     (n ≤ length (findMultipleNextUnusedDefaultLabels r wallet n (contacts r)))%nat) →
  match addMultipleAccounts r networkId walletId newAccounts w with
  | (Normal (Some newRawAccounts), w') =>
      let newLabels :=
        findMultipleNextUnusedDefaultLabels r (newRawAccounts !! 0%nat ≫= a_wallet)
          (length newRawAccounts) (contacts r) in
      ∃ cs labels,
        calls w' = calls w ++ cs
        ∧ contactLabels cs = Some <$> labels
        ∧ labels `sublist_of` newLabels
        ∧ (NoDup newLabels → NoDup labels)
  | _ => True
  end.
Proof.
  intros Henough.
  pose proof (addMultipleAccounts_created networkId walletId newAccounts w) as Hrun.
  destruct (addMultipleAccounts r networkId walletId newAccounts w)
    as [[[newRawAccounts|]|e] w']; [|done|done].
  destruct Hrun as (network & cs & m & _ & Hraws & -> & _ & _ & Hlabels & _).
  cbv zeta. set (newLabels := findMultipleNextUnusedDefaultLabels r _ _ _) in *.
  assert (length newRawAccounts ≤ length newAccounts)%nat as Hlen.
  { rewrite Hraws, length_rawAccountsFrom. apply length_filter. }
  rewrite lookups_take in Hlabels by (by apply Henough).
  apply sublist_fmap_inv in Hlabels as (labels & Heq & Hsub).
  assert (labels `sublist_of` newLabels) as Hsub'.
  { etrans; [exact Hsub|apply sublist_take]. }
  eexists _, labels. simpl. split; [done|].
  rewrite contactLabels_snoc. split; [done|]. split; [done|].
  intros Hnodup. by eapply sublist_NoDup.
Qed.

(** X4. The fresh values [addMultipleAccounts] draws: every created account's
    asset entry is stamped with its own [Date.now()] read, in account order,
    and every created contact gets the uuid of its own [generateUUID()] call,
    in order; no other reads or draws are made, and none at all when nothing
    is created. *)
Theorem addMultipleAccounts_fresh_values networkId walletId newAccounts w :
  match addMultipleAccounts r networkId walletId newAccounts w with
  | (Throw _, _) => False
  | (Normal None, w') =>
      clockReads w' = clockReads w ∧ uuidsDrawn w' = uuidsDrawn w
  | (Normal (Some newRawAccounts), w') =>
      ∃ cs m,
        calls w' = calls w ++ cs
        ∧ clockReads w' = (clockReads w + length newRawAccounts)%nat
        ∧ assetMtimes newRawAccounts
          = Date_now r <$> seq (clockReads w) (length newRawAccounts)
        ∧ uuidsDrawn w' = (uuidsDrawn w + m)%nat
        ∧ createdContactUuids cs = generateUUID r <$> seq (uuidsDrawn w) m
  end.
Proof.
  pose proof (addMultipleAccounts_created networkId walletId newAccounts w) as Hrun.
  destruct (addMultipleAccounts r networkId walletId newAccounts w)
    as [[[newRawAccounts|]|e] w']; [| |done].
  - destruct Hrun as (network & cs & m & _ & Hraws & -> & _ & _ & _ & Huuids).
    eexists _, m. simpl. split; [done|]. split; [done|]. split.
    { rewrite Hraws at 1. rewrite assetMtimes_rawAccountsFrom.
      by rewrite Hraws, length_rawAccountsFrom. }
    split; [done|]. by rewrite createdContactUuids_snoc.
  - by subst w'.
Qed.

End StoreProviderMore.

(** ** Further properties of the restore cache *)

Section RestoreCacheMore.

Import StoreProvider.

Variable r : Render.

(** X5. Invariant of the restore cache: in every value the cache takes while
    the provider runs, an account is held under its own uuid only. *)
Theorem restore_cache_keyed_by_uuid cache key account :
  reachable r cache → read cache key = Some account → a_uuid account = key.
Proof.
  intros Hreach Hread. apply (reachable_keyed_by_uuid r cache Hreach).
  by apply read_Some.
Qed.

(** X6. Neither cache function ever removes a key: [restoreDeletedAccount]
    leaves the key bound to [undefined], so the cache only grows. Restoring
    never puts an account into the cache, and deleting changes the entry of
    the account's uuid only. *)
Theorem restore_cache_never_shrinks account accountRestore accountId w :
  dom (accountRestoreState w)
    ⊆ dom (accountRestoreState (deleteAccountFromCache r account w).2)
  ∧ dom (accountRestoreState w)
    ⊆ dom (accountRestoreState (restoreDeletedAccount accountRestore accountId w).2)
  ∧ (∀ key held,
       read (accountRestoreState (restoreDeletedAccount accountRestore accountId w).2) key
       = Some held →
       read (accountRestoreState w) key = Some held)
  ∧ (∀ key, key ≠ a_uuid account →
       accountRestoreState (deleteAccountFromCache r account w).2 !! key
       = accountRestoreState w !! key).
Proof.
  rewrite deleteAccountFromCache_run. simpl.
  split; [rewrite dom_insert_L; set_solver|].
  destruct (read accountRestore accountId) as [found|] eqn:Hread.
  - rewrite (restoreDeletedAccount_run _ _ found) by done. simpl.
    split; [rewrite dom_insert_L; set_solver|]. split.
    + intros key held. destruct (decide (a_uuid found = key)) as [<-|Hne].
      * by rewrite read_insert_eq.
      * by rewrite read_insert_ne.
    + intros key Hne. by rewrite lookup_insert_ne.
  - rewrite restoreDeletedAccount_throws by done. simpl.
    split; [done|]. split; [done|].
    intros key Hne. by rewrite lookup_insert_ne.
Qed.

(** X7. Deleted accounts with different uuids do not interfere: the cache is
    the same whichever is deleted first, and after one of them has been
    restored the other is still held and its restore dispatches it. *)
Theorem deleted_accounts_independent a b w :
  a_uuid a ≠ a_uuid b →
  accountRestoreState
    (deleteAccountFromCache r b (deleteAccountFromCache r a w).2).2
  = accountRestoreState
      (deleteAccountFromCache r a (deleteAccountFromCache r b w).2).2
  ∧ ∃ w2 w3 w4,
      w2 = (deleteAccountFromCache r b (deleteAccountFromCache r a w).2).2
      ∧ restoreDeletedAccount (accountRestoreState w2) (a_uuid a) w2 = (Normal (), w3)
      ∧ read (accountRestoreState w3) (a_uuid b) = Some b
      ∧ restoreDeletedAccount (accountRestoreState w3) (a_uuid b) w3 = (Normal (), w4)
      ∧ calls w4
        = calls w2 ++ [dispatch (addAccounts [a]); dispatch (addAccounts [b])].
Proof.
  intros Hne. rewrite !deleteAccountFromCache_run. simpl.
  split; [by apply insert_insert_ne|].
  eexists _, _, _. split; [done|]. simpl.
  split.
  { apply restoreDeletedAccount_run. simpl.
    rewrite read_insert_ne by done. apply read_insert_eq. }
  simpl. split.
  { rewrite read_insert_ne by done. apply read_insert_eq. }
  split.
  { apply restoreDeletedAccount_run. simpl.
    rewrite read_insert_ne by done. apply read_insert_eq. }
  simpl. by rewrite <- !app_assoc.
Qed.

(** X8. [restoreDeletedAccount] decides on the cache value its closure
    captured, not on the state cell: called twice from the same render for an
    account the captured cache holds, it does not throw the second time and
    dispatches [addAccounts] with the account twice. *)
Theorem restore_twice_from_one_render accountRestore accountId account w :
  read accountRestore accountId = Some account →
  ∃ w1 w2,
    restoreDeletedAccount accountRestore accountId w = (Normal (), w1)
    ∧ restoreDeletedAccount accountRestore accountId w1 = (Normal (), w2)
    ∧ calls w2
      = calls w ++ [dispatch (addAccounts [account]); dispatch (addAccounts [account])]
    ∧ accountRestoreState w2 = <[a_uuid account := None]> (accountRestoreState w).
Proof.
  intros Hread. eexists _, _.
  split; [by apply restoreDeletedAccount_run|].
  split; [by apply restoreDeletedAccount_run|]. simpl.
  split; [by rewrite <- app_assoc|]. apply insert_insert_eq.
Qed.

(** X9. The last delete wins: deleting a second account object with the same
    uuid overwrites the first in the cache, and the restore of that uuid
    dispatches the second object only. *)
Theorem delete_overwrites_same_uuid a a' w :
  a_uuid a' = a_uuid a →
  ∃ w2 w3,
    w2 = (deleteAccountFromCache r a' (deleteAccountFromCache r a w).2).2
    ∧ read (accountRestoreState w2) (a_uuid a) = Some a'
    ∧ restoreDeletedAccount (accountRestoreState w2) (a_uuid a) w2 = (Normal (), w3)
    ∧ calls w3 = calls w2 ++ [dispatch (addAccounts [a'])]
    ∧ accountRestoreState w3 = <[a_uuid a := None]> (accountRestoreState w).
Proof.
  intros Huuid. rewrite !deleteAccountFromCache_run. simpl.
  eexists _, _. split; [done|]. simpl. rewrite Huuid.
  split; [apply read_insert_eq|]. split.
  { apply restoreDeletedAccount_run. simpl. apply read_insert_eq. }
  simpl. split; [done|]. rewrite Huuid. by rewrite !insert_insert_eq.
Qed.

(** X10. [deleteAccountFromCache] makes no existence check: it always issues
    exactly three calls. The dashboard list it hands to
    [updateSettingsAccounts] is the previous list, in order, without any
    occurrence of the uuid, and is the previous list itself when the account
    was not on the dashboard. *)
Theorem deleteAccountFromCache_dashboard account w :
  ∃ dashboardAccounts,
    calls (deleteAccountFromCache r account w).2
    = calls w ++ [deleteAccount account;
                  updateSettingsAccounts dashboardAccounts;
                  dispatch (deleteMembership (a_address account) (a_networkId account))]
    ∧ dashboardAccounts `sublist_of` settings_dashboardAccounts r
    ∧ (a_uuid account ∉ dashboardAccounts)
    ∧ (a_uuid account ∉ settings_dashboardAccounts r →
       dashboardAccounts = settings_dashboardAccounts r)
    ∧ (length (settings_dashboardAccounts r)
       = length dashboardAccounts
         + length (filter (λ u, u = a_uuid account) (settings_dashboardAccounts r)))%nat.
Proof.
  rewrite deleteAccountFromCache_run. simpl. eexists. split; [done|].
  split; [apply sublist_filter|]. split.
  { rewrite list_elem_of_filter. tauto. }
  split.
  { intros Hnotin. induction (settings_dashboardAccounts r) as [|u l IH]; [done|].
    apply not_elem_of_cons in Hnotin as [Hne Hl].
    rewrite filter_cons_True by done. by rewrite IH. }
  induction (settings_dashboardAccounts r) as [|u l IH]; [done|].
  rewrite !filter_cons. repeat case_decide; simpl; try lia; exfalso; tauto.
Qed.

End RestoreCacheMore.

(** ** Further properties of the totals *)

Section TotalsMore.

Variable accounts : list StoreAccount.
Variable Bigish : Type.
Variable number : Type.
Variable number_0 : number.
Variable bigify : StoreProvider.BigifyInput number → Bigish.
Variable plus : Bigish → Bigish → Bigish.
Variable convertToFiatFromAsset : StoreAsset → option number → string.
Variable getTotalByAsset : list StoreAsset → list (TUuid * StoreAsset).

Local Abbreviation assets := (StoreProvider.assets accounts).
Local Abbreviation totals := (StoreProvider.totals accounts getTotalByAsset).
Local Abbreviation totalFiat :=
  (StoreProvider.totalFiat accounts Bigish number number_0 bigify plus
     convertToFiatFromAsset getTotalByAsset).

Lemma assets_drop_empty (selected : list StoreAccount) :
  assets (Some (filter (λ a, 0 < length (sa_assets a))%nat selected))
  = assets (Some selected).
Proof.
  unfold StoreProvider.assets. simpl.
  induction selected as [|a l IH]; [done|].
  rewrite filter_cons. case_decide as Ha; simpl; rewrite IH; [done|].
  destruct (sa_assets a); [done|]. simpl in Ha. lia.
Qed.

(** X11. Only the assets of a selection matter: accounts without assets can
    be dropped from a selection without changing [assets], [totals] or
    [totalFiat], and the number of assets is the sum over the selected
    accounts. The default applies to an omitted selection only: an empty
    selection has no assets, it does not fall back to all accounts. *)
Theorem totals_ignore_accounts_without_assets selected getAssetRate :
  let withAssets := filter (λ a, 0 < length (sa_assets a))%nat selected in
  assets (Some withAssets) = assets (Some selected)
  ∧ totals (Some withAssets) = totals (Some selected)
  ∧ totalFiat (Some withAssets) getAssetRate = totalFiat (Some selected) getAssetRate
  ∧ length (assets (Some selected)) = sum_list ((λ a, length (sa_assets a)) <$> selected)
  ∧ assets (Some []) = []
  ∧ assets None = assets (Some accounts).
Proof.
  intros withAssets.
  pose proof (assets_drop_empty selected) as Hassets. fold withAssets in Hassets.
  split; [done|]. split.
  { unfold StoreProvider.totals. simpl. by rewrite Hassets. }
  split.
  { unfold StoreProvider.totalFiat, StoreProvider.totals. simpl. by rewrite Hassets. }
  split; [|done].
  unfold StoreProvider.assets. simpl.
  induction selected as [|a l IH]; [done|]. simpl. rewrite length_app.
  f_equal. apply IH. apply assets_drop_empty.
Qed.

(** X12. [totalFiat] consults [getAssetRate] on the aggregated assets only:
    two rate functions that agree on the assets of [totals] give the same
    total. *)
Theorem totalFiat_rates_on_totals_only selectedAccounts rate1 rate2 :
  (∀ asset, asset ∈ totals selectedAccounts →
     rate1 (sas_asset asset) = rate2 (sas_asset asset)) →
  totalFiat selectedAccounts rate1 = totalFiat selectedAccounts rate2.
Proof.
  intros Hagree. unfold StoreProvider.totalFiat.
  assert (StoreProvider.totals accounts getTotalByAsset
            (Some (default accounts selectedAccounts))
          = totals selectedAccounts) as -> by (by destruct selectedAccounts).
  generalize (bigify (StoreProvider.OfNumber number_0)).
  induction (totals selectedAccounts) as [|asset l IH]; intros start; [done|].
  simpl. rewrite (Hagree asset) by (by left).
  apply IH. intros asset' Hin. apply Hagree. by right.
Qed.

End TotalsMore.

(** ** The Uniswap claims effect *)

Section UniClaimsFacts.

Import StoreProvider.

Variable DEFAULT_NETWORK : NetworkId.
Variable RawClaims : Type.
Variable UniClaimResult : Type.
Variable getClaims_answer : list TAddress → option RawClaims.
Variable isClaimed_answer : option Network → RawClaims → list UniClaimResult.

Local Abbreviation mainnetAccounts := (StoreProvider.mainnetAccounts DEFAULT_NETWORK).
Local Abbreviation uniClaimsEffect :=
  (StoreProvider.uniClaimsEffect DEFAULT_NETWORK RawClaims UniClaimResult
     getClaims_answer isClaimed_answer).
Local Abbreviation getClaims := (StoreProvider.getClaims RawClaims UniClaimResult).
Local Abbreviation isClaimed := (StoreProvider.isClaimed RawClaims UniClaimResult).
Local Abbreviation setUniClaims := (StoreProvider.setUniClaims RawClaims UniClaimResult).


End UniClaimsFacts.

(** ** Further properties of the persistence reducer *)

Section PersistenceMore.

Import Persistence.

Variable SliceState : Type.
Variable Action : Type.
Variable reducer :
  Slice → option (SubState SliceState) → Action → SubState SliceState.
Variable initialLegacyState_version : string.

Local Abbreviation persistenceReducer :=
  (Persistence.persistenceReducer SliceState Action reducer initialLegacyState_version).

Lemma name_inj (s1 s2 : Slice) : name s1 = name s2 → s1 = s2.
Proof. destruct s1, s2; simpl; intros H; (done || discriminate H). Qed.

Lemma object_lookup_NoDup {V} (entries : list (string * V)) (k : string) (v : V) :
  NoDup entries.*1 → (k, v) ∈ entries → object entries !! k = Some v.
Proof.
  intros Hnodup Hin. unfold object. apply elem_of_list_to_map_1.
  - rewrite fmap_reverse. by rewrite reverse_Permutation.
  - by apply elem_of_reverse.
Qed.

(** X14. The persistence reducer reduces every slice on its own: after any
    action, the sub-state under a slice's name is that slice's reducer
    applied to the previous sub-state under that name ([undefined] when
    absent) and the action; no slice sees another slice's state, and a key of
    the previous state that is not one of the eleven sub-states is dropped. *)
Theorem persistenceReducer_slices state action :
  (∀ s, persistenceReducer state action !! name s
        = Some (reducer s (state !! name s) action))
  ∧ (∀ k, k ∉ listedSubStates → persistenceReducer state action !! k = None)
  ∧ (∀ state' s,
       state' !! name s = state !! name s →
       persistenceReducer state' action !! name s
       = persistenceReducer state action !! name s).
Proof.
  assert (∀ st s, persistenceReducer st action !! name s
                  = Some (reducer s (st !! name s) action)) as Hslice.
  { intros st s. unfold Persistence.persistenceReducer.
    rewrite combineReducers_lookup.
    rewrite (object_lookup_NoDup _ (name s) (reducer s)); [done| |].
    - simpl. apply (bool_decide_unpack _). by vm_compute.
    - unfold persistenceReducer_entries. rewrite !elem_of_cons.
      destruct s; simpl; tauto. }
  split; [apply Hslice|]. split.
  - intros k Hk. apply not_elem_of_dom. by rewrite persistenceReducer_keys.
  - intros state' s Heq. by rewrite !Hslice, Heq.
Qed.

End PersistenceMore.

(** ** Runs on the sample render *)

Section StoreProviderMoreSamples.

Import StoreProvider.

(** The sample render hands out its four distinct labels by position. *)
Lemma addMultipleAccounts_labels_defined_witness :
  (∀ wallet n, (n ≤ length sampleNewAccounts)%nat →
     (n ≤ length (findMultipleNextUnusedDefaultLabels sampleRender wallet n
                    (contacts sampleRender)))%nat)
  ∧ ∃ labels,
      contactLabels
        (calls (addMultipleAccounts sampleRender "Ethereum" (Some "LEDGER_NANO_S")
                  sampleNewAccounts emptyWorld).2)
      = Some <$> labels
      ∧ NoDup labels.
Proof.
  assert (∀ wallet n, (n ≤ length sampleNewAccounts)%nat →
            (n ≤ length (findMultipleNextUnusedDefaultLabels sampleRender wallet n
                           (contacts sampleRender)))%nat) as Henough.
  { intros wallet n Hn. simpl in *. rewrite length_take. simpl. lia. }
  split; [exact Henough|].
  pose proof (addMultipleAccounts_labels_defined sampleRender "Ethereum"
                (Some "LEDGER_NANO_S") sampleNewAccounts emptyWorld Henough) as Hthm.
  destruct (addMultipleAccounts sampleRender "Ethereum" (Some "LEDGER_NANO_S")
              sampleNewAccounts emptyWorld) as [[[newRawAccounts|]|e] w'] eqn:Hrun;
    [|vm_compute in Hrun; discriminate Hrun..].
  destruct Hthm as (cs & labels & Hcalls & Hlabels & _ & Hnodup).
  exists labels. simpl. rewrite Hcalls. split; [exact Hlabels|].
  apply Hnodup. simpl. refine (sublist_NoDup _ _ _ (sublist_take _ _)).
  apply (bool_decide_unpack _). by vm_compute.
Defined.

(** The cache after the sample account was deleted. *)
Lemma restore_cache_keyed_by_uuid_witness :
  reachable sampleRender
    (accountRestoreState (deleteAccountFromCache sampleRender sampleAccount emptyWorld).2)
  ∧ read (accountRestoreState
            (deleteAccountFromCache sampleRender sampleAccount emptyWorld).2) "u1"
    = Some sampleAccount
  ∧ a_uuid sampleAccount = "u1".
Proof.
  assert (reachable sampleRender
            (accountRestoreState
               (deleteAccountFromCache sampleRender sampleAccount emptyWorld).2))
    as Hreach.
  { apply (reachable_delete sampleRender emptyWorld sampleAccount).
    apply reachable_initial. }
  assert (read (accountRestoreState
                  (deleteAccountFromCache sampleRender sampleAccount emptyWorld).2) "u1"
          = Some sampleAccount) as Hread.
  { rewrite deleteAccountFromCache_run. apply read_insert_eq. }
  split; [exact Hreach|]. split; [exact Hread|].
  exact (restore_cache_keyed_by_uuid sampleRender _ "u1" sampleAccount Hreach Hread).
Defined.

(** Two sample accounts deleted in either order. *)
Lemma deleted_accounts_independent_witness :
  a_uuid sampleAccount ≠ a_uuid sampleAccount2
  ∧ accountRestoreState
      (deleteAccountFromCache sampleRender sampleAccount2
         (deleteAccountFromCache sampleRender sampleAccount emptyWorld).2).2
    = accountRestoreState
        (deleteAccountFromCache sampleRender sampleAccount
           (deleteAccountFromCache sampleRender sampleAccount2 emptyWorld).2).2.
Proof.
  assert (a_uuid sampleAccount ≠ a_uuid sampleAccount2) as Hne by discriminate.
  split; [exact Hne|].
  exact (proj1 (deleted_accounts_independent sampleRender sampleAccount sampleAccount2
                  emptyWorld Hne)).
Defined.

(** Two restores from a render whose cache holds the sample account. *)
Lemma restore_twice_from_one_render_witness :
  read (<["u1" := Some sampleAccount]> ∅) "u1" = Some sampleAccount
  ∧ ∃ w1 w2,
      restoreDeletedAccount (<["u1" := Some sampleAccount]> ∅) "u1" emptyWorld
      = (Normal (), w1)
      ∧ restoreDeletedAccount (<["u1" := Some sampleAccount]> ∅) "u1" w1
        = (Normal (), w2)
      ∧ calls w2 = [dispatch (addAccounts [sampleAccount]);
                    dispatch (addAccounts [sampleAccount])].
Proof.
  assert (read (<["u1" := Some sampleAccount]> ∅) "u1" = Some sampleAccount) as Hread
    by apply read_insert_eq.
  split; [exact Hread|].
  destruct (restore_twice_from_one_render _ "u1" sampleAccount emptyWorld Hread)
    as (w1 & w2 & Hrun1 & Hrun2 & Hcalls & _).
  exists w1, w2. split; [exact Hrun1|]. split; [exact Hrun2|exact Hcalls].
Defined.

(** The sample account deleted, then deleted again after an edit. *)
Lemma delete_overwrites_same_uuid_witness :
  a_uuid sampleAccountEdited = a_uuid sampleAccount
  ∧ read (accountRestoreState
            (deleteAccountFromCache sampleRender sampleAccountEdited
               (deleteAccountFromCache sampleRender sampleAccount emptyWorld).2).2) "u1"
    = Some sampleAccountEdited.
Proof.
  split; [reflexivity|].
  destruct (delete_overwrites_same_uuid sampleRender sampleAccount sampleAccountEdited
              emptyWorld eq_refl) as (w2 & w3 & -> & Hread & _).
  exact Hread.
Defined.

(** Two rate functions that agree on the one selected asset. *)
Lemma totalFiat_rates_on_totals_only_witness :
  (∀ asset,
     asset ∈ StoreProvider.totals [] sample_getTotalByAsset (Some sampleSelection) →
     sampleRate1 (sas_asset asset) = sampleRate2 (sas_asset asset))
  ∧ StoreProvider.totalFiat [] Z Z 0 sample_bigify Z.add sample_convertToFiatFromAsset
      sample_getTotalByAsset (Some sampleSelection) sampleRate1
    = StoreProvider.totalFiat [] Z Z 0 sample_bigify Z.add sample_convertToFiatFromAsset
        sample_getTotalByAsset (Some sampleSelection) sampleRate2.
Proof.
  assert (∀ asset,
            asset ∈ StoreProvider.totals [] sample_getTotalByAsset (Some sampleSelection) →
            sampleRate1 (sas_asset asset) = sampleRate2 (sas_asset asset)) as Hagree.
  { intros asset Hin. simpl in Hin. apply list_elem_of_singleton in Hin as ->.
    reflexivity. }
  split; [exact Hagree|].
  exact (totalFiat_rates_on_totals_only [] Z Z 0 sample_bigify Z.add
           sample_convertToFiatFromAsset sample_getTotalByAsset (Some sampleSelection)
           sampleRate1 sampleRate2 Hagree).
Defined.

End StoreProviderMoreSamples.
